(** * simple_build.write._git : a shallow embedding and its properties

    The module under study is a small interface to git:
    - [find_git_root] walks the parents of a path until one of them holds
      a [.git] directory;
    - [GitFolder] binds a working directory to its repository root and runs
      [git ls-files] in it, turning the NUL separated output into a set of
      paths.

    Python values are embedded as follows.  A [str] is the list of its
    Unicode code points, [bytes] is a list of [Byte.byte], a pathlib path
    (POSIX flavour) is its root together with its components, raising an
    exception is a constructor of [result], and a [set] of paths is a
    [gset].  What the operating system answers (is this a directory, what
    does a path resolve to, how does a child process end) is read from a
    [Host], of which the functions below are clients. *)

From Equations Require Import Equations.
From Stdlib.Strings Require Import Byte Ascii String.
From stdpp Require Import base option list numbers countable gmap.

Set Default Proof Using "Type".
Local Open Scope N_scope.

(** ** Python [str] and [bytes] *)

Definition str := list N.
Definition bytes := list byte.

(** The code points of an ASCII literal of the source. *)
Definition lit (s : string) : str := N_of_ascii <$> list_ascii_of_string s.

(** A bytes literal of the source, such as [b"a.txt"]. *)
Definition blit (s : string) : bytes := list_byte_of_string s.

Definition NUL : byte := x00.

(** [sep.join(xs)] *)
Fixpoint join {A} (sep : list A) (xs : list (list A)) : list A :=
  match xs with
  | [] => []
  | [x] => x
  | x :: rest => x ++ sep ++ join sep rest
  end.

(** [s.split(sep)] for a separator of length one: never the empty list,
    [b"".split(b"\0")] is [[b""]]. *)
Fixpoint split {A} `{EqDecision A} (sep : A) (s : list A) : list (list A) :=
  match s with
  | [] => [[]]
  | c :: s' =>
      if decide (c = sep) then [] :: split sep s'
      else match split sep s' with
           | [] => [[c]]
           | w :: ws => (c :: w) :: ws
           end
  end.

(** The truth value of a sequence: it is not empty. *)
Definition nonempty {A} `{EqDecision A} (x : list A) : bool :=
  negb (bool_decide (x = [])).

(** [s.lstrip(c)], [s.rstrip(c)] and [s.strip(c)] for a one element set of
    stripped values. *)
Fixpoint lstrip {A} `{EqDecision A} (c : A) (s : list A) : list A :=
  match s with
  | [] => []
  | x :: s' => if decide (x = c) then lstrip c s' else s
  end.

Definition rstrip {A} `{EqDecision A} (c : A) (s : list A) : list A :=
  reverse (lstrip c (reverse s)).

Definition strip {A} `{EqDecision A} (c : A) (s : list A) : list A :=
  rstrip c (lstrip c s).

#[global] Instance byte_eq_dec : EqDecision byte.
Proof. intros a b. destruct (Byte.byte_eq_dec a b); [left|right]; done. Defined.

(** ** pathlib, POSIX flavour *)

Module pathlib.

(** The root of a POSIX path is [''], ['/'] or, for exactly two leading
    slashes, ['//']. *)
Inductive Root := NoRoot | Slash | DoubleSlash.

Record PurePath := { root : Root; parts : list str }.

#[global] Instance Root_eq_dec : EqDecision Root.
Proof. solve_decision. Defined.
#[global] Instance PurePath_eq_dec : EqDecision PurePath.
Proof. solve_decision. Defined.

#[global] Instance Root_countable : Countable Root.
Proof.
  refine (inj_countable'
    (λ r, match r with NoRoot => 0%nat | Slash => 1%nat | DoubleSlash => 2%nat end)
    (λ n, match n with 0%nat => NoRoot | 1%nat => Slash | _ => DoubleSlash end) _).
  by intros [].
Defined.
#[global] Instance PurePath_countable : Countable PurePath.
Proof.
  refine (inj_countable' (λ p, (root p, parts p))
                         (λ rp, {| root := rp.1; parts := rp.2 |}) _).
  by intros [].
Defined.

Definition slash : N := 47.
Definition dot : N := 46.

(** The root that the leading slashes of a string select, as
    [posixpath.splitroot] tells them apart by [p[:1]], [p[1:2]] and
    [p[2:3]]. *)
Definition splitroot (s : str) : Root :=
  if bool_decide (take 1 s ≠ [slash]) then NoRoot
  else if bool_decide (take 1 (drop 1 s) ≠ [slash])
          || bool_decide (take 1 (drop 2 s) = [slash]) then Slash
  else DoubleSlash.

(** A component is kept unless it is empty or ['.']. *)
Definition kept (x : str) : bool :=
  negb (bool_decide (x = [])) && negb (bool_decide (x = [dot])).

(** [PurePosixPath(s)] *)
Definition PurePosixPath (s : str) : PurePath :=
  {| root := splitroot s; parts := List.filter kept (split slash s) |}.

Definition root_str (r : Root) : str :=
  match r with NoRoot => [] | Slash => [slash] | DoubleSlash => [slash; slash] end.

(** [str(p)] *)
Definition to_str (p : PurePath) : str :=
  match root_str (root p) ++ join [slash] (parts p) with
  | [] => [dot]
  | s => s
  end.

(** [p / q]: a rooted right operand replaces the left one. *)
Definition joinpath (p q : PurePath) : PurePath :=
  match root q with
  | NoRoot => {| root := root p; parts := parts p ++ parts q |}
  | _ => q
  end.

(** [p / s] for a string [s] *)
Definition joinstr (p : PurePath) (s : str) : PurePath :=
  joinpath p (PurePosixPath s).

(** [p.parent]: a path without components is its own parent. *)
Definition parent (p : PurePath) : PurePath :=
  match parts p with
  | [] => p
  | _ => {| root := root p; parts := removelast (parts p) |}
  end.

(** [p.parents], nearest first. *)
Definition parents (p : PurePath) : list PurePath :=
  (λ k, {| root := root p; parts := take k (parts p) |})
    <$> reverse (seq 0 (length (parts p))).

(** The path followed by its parents. *)
Definition lineage (p : PurePath) : list PurePath := p :: parents p.

(** [Path | str], the annotation of the path arguments. *)
Inductive PathLike := OfPath (p : PurePath) | OfStr (s : str).

(** [Path(x)] *)
Definition Path (x : PathLike) : PurePath :=
  match x with
  | OfPath p => p
  | OfStr s => PurePosixPath s
  end.

End pathlib.
Export pathlib.

Infix "/:" := joinpath (at level 40, left associativity).
Infix "/." := joinstr (at level 40, left associativity).

(** ** UTF-8 *)

Module codecs.

Definition cont (b : N) : bool := (0x80 <=? b) && (b <=? 0xBF).

Definition two_ok (b0 b1 : N) : bool :=
  (0xC2 <=? b0) && (b0 <=? 0xDF) && cont b1.

(** Three byte forms, without the overlong ones under [E0] and without
    the surrogates under [ED]. *)
Definition three_ok (b0 b1 b2 : N) : bool :=
  cont b2 &&
  (  (b0 =? 0xE0) && (0xA0 <=? b1) && (b1 <=? 0xBF)
  || (0xE1 <=? b0) && (b0 <=? 0xEC) && cont b1
  || (b0 =? 0xED) && (0x80 <=? b1) && (b1 <=? 0x9F)
  || (0xEE <=? b0) && (b0 <=? 0xEF) && cont b1).

(** Four byte forms, up to U+10FFFF. *)
Definition four_ok (b0 b1 b2 b3 : N) : bool :=
  cont b2 && cont b3 &&
  (  (b0 =? 0xF0) && (0x90 <=? b1) && (b1 <=? 0xBF)
  || (0xF1 <=? b0) && (b0 <=? 0xF3) && cont b1
  || (b0 =? 0xF4) && (0x80 <=? b1) && (b1 <=? 0x8F)).

Definition low6 (b : N) : N := N.land b 0x3F.

Definition cp2 (b0 b1 : N) : N :=
  N.lor (N.shiftl (N.land b0 0x1F) 6) (low6 b1).
Definition cp3 (b0 b1 b2 : N) : N :=
  N.lor (N.shiftl (N.land b0 0x0F) 12) (N.lor (N.shiftl (low6 b1) 6) (low6 b2)).
Definition cp4 (b0 b1 b2 b3 : N) : N :=
  N.lor (N.shiftl (N.land b0 0x07) 18)
        (N.lor (N.shiftl (low6 b1) 12) (N.lor (N.shiftl (low6 b2) 6) (low6 b3))).

(** One pass of the UTF-8 decoder: a code point for each well formed
    sequence, and each byte that starts none is handed over as it is. *)
Fixpoint scan (bs : bytes) : list (N + byte) :=
  match bs with
  | [] => []
  | b0 :: r0 =>
      let n0 := Byte.to_N b0 in
      let bad := inr b0 :: scan r0 in
      if n0 <? 0x80 then inl n0 :: scan r0
      else match r0 with
           | [] => bad
           | b1 :: r1 =>
               let n1 := Byte.to_N b1 in
               if two_ok n0 n1 then inl (cp2 n0 n1) :: scan r1
               else match r1 with
                    | [] => bad
                    | b2 :: r2 =>
                        let n2 := Byte.to_N b2 in
                        if three_ok n0 n1 n2 then inl (cp3 n0 n1 n2) :: scan r2
                        else match r2 with
                             | [] => bad
                             | b3 :: r3 =>
                                 let n3 := Byte.to_N b3 in
                                 if four_ok n0 n1 n2 n3
                                 then inl (cp4 n0 n1 n2 n3) :: scan r3
                                 else bad
                             end
                    end
           end
  end.

(** [bs.decode()]: UTF-8 with [errors='strict']; [None] stands for the
    [UnicodeDecodeError]. *)
Definition decode (bs : bytes) : option str :=
  mapM (λ x, match x with inl c => Some c | inr _ => None end) (scan bs).

(** UTF-8 with [errors='surrogateescape']: an undecodable byte [b]
    becomes the lone surrogate U+DC00 + [b]. *)
Definition decode_surrogateescape (bs : bytes) : str :=
  (λ x, match x with inl c => c | inr b => 0xDC00 + Byte.to_N b end) <$> scan bs.

End codecs.

(** ** [repr] of a [str] *)

Module builtins.

Definition squote : N := 39.
Definition dquote : N := 34.
Definition backslash : N := 92.

Definition hexdigit (n : N) : N := if n <? 10 then 48 + n else 87 + n.

(** The [k] lowest hexadecimal digits of [n], most significant first. *)
Fixpoint hex (k : nat) (n : N) : str :=
  match k with
  | O => []
  | S k' => hex k' (N.shiftr n 4) ++ [hexdigit (N.land n 0xF)]
  end.

(** The quote [repr] wraps the string in: a double quote only when the
    string holds single quotes and no double quote. *)
Definition repr_quote (s : str) : N :=
  if bool_decide (squote ∈ s) && negb (bool_decide (dquote ∈ s))
  then dquote else squote.

Definition repr_char (isprintable : N → bool) (quote ch : N) : str :=
  if (ch =? quote) || (ch =? backslash) then [backslash; ch]
  else if ch =? 9 then lit "\t"
  else if ch =? 10 then lit "\n"
  else if ch =? 13 then lit "\r"
  else if (ch <? 32) || (ch =? 0x7F) then lit "\x" ++ hex 2 ch
  else if ch <? 0x7F then [ch]
  else if isprintable ch then [ch]
  else if ch <=? 0xFF then lit "\x" ++ hex 2 ch
  else if ch <=? 0xFFFF then lit "\u" ++ hex 4 ch
  else lit "\U" ++ hex 8 ch.

(** [repr(s)], the conversion [!r] of an f-string. *)
Definition repr (isprintable : N → bool) (s : str) : str :=
  let q := repr_quote s in
  [q] ++ mjoin (repr_char isprintable q <$> s) ++ [q].

End builtins.

(** ** Exceptions *)

(** The exception classes the module defines, catches or lets through. *)
Inductive ExcClass :=
| Exception_ | OSError_ | FileNotFoundError_ | PermissionError_
| SubprocessError_ | CalledProcessError_
| ValueError_ | UnicodeError_ | UnicodeDecodeError_
| GitError_ | NotGitRepositoryError_ | GitNotFoundError_.

#[global] Instance ExcClass_eq_dec : EqDecision ExcClass.
Proof. solve_decision. Defined.

(** The base class written in the [class] statement. *)
Definition base (c : ExcClass) : option ExcClass :=
  match c with
  | Exception_ => None
  | OSError_ | SubprocessError_ | ValueError_ | GitError_ => Some Exception_
  | FileNotFoundError_ | PermissionError_ => Some OSError_
  | CalledProcessError_ => Some SubprocessError_
  | UnicodeError_ => Some ValueError_
  | UnicodeDecodeError_ => Some UnicodeError_
  | NotGitRepositoryError_ | GitNotFoundError_ => Some GitError_
  end.

Fixpoint mro_upto (n : nat) (c : ExcClass) : list ExcClass :=
  c :: match n, base c with
       | S n', Some b => mro_upto n' b
       | _, _ => []
       end.

(** The class and its bases; no chain is longer than four. *)
Definition mro (c : ExcClass) : list ExcClass := mro_upto 4 c.

Definition issubclass (c d : ExcClass) : bool := bool_decide (d ∈ mro c).

(** Exception values.  [cause] is what [raise ... from err] records. *)
Inductive PyException :=
| FileNotFoundError
| PermissionError
| CalledProcessError (returncode : Z) (cmd : list str) (output stderr : bytes)
| UnicodeDecodeError (object : bytes)
| GitError (msg : str) (cause : PyException)
| NotGitRepositoryError (msg : str)
| GitNotFoundError (cause : PyException).

(** [type(e)] *)
Definition type_of (e : PyException) : ExcClass :=
  match e with
  | FileNotFoundError => FileNotFoundError_
  | PermissionError => PermissionError_
  | CalledProcessError _ _ _ _ => CalledProcessError_
  | UnicodeDecodeError _ => UnicodeDecodeError_
  | GitError _ _ => GitError_
  | NotGitRepositoryError _ => NotGitRepositoryError_
  | GitNotFoundError _ => GitNotFoundError_
  end.

(** [isinstance(e, c)], the test an [except c] clause makes. *)
Definition isinstance (e : PyException) (c : ExcClass) : bool :=
  issubclass (type_of e) c.

Inductive result (A : Type) :=
| Return (a : A)
| Raise (e : PyException).
Arguments Return {A} a.
Arguments Raise {A} e.

(** ** The host: file system and child processes *)

(** How [subprocess] finds the child process ended: it could not be
    started, or it ran and exited with a status. *)
Inductive PopenOutcome :=
| SpawnFailed (e : PyException)
| Exited (returncode : Z) (stdout stderr : bytes).

Class Host := {
  (** the state of the machine: files, directories, installed programs *)
  World : Type;
  (** [p.is_dir()] *)
  is_dir : World → PurePath → bool;
  (** [p.resolve()] *)
  resolve : World → PurePath → PurePath;
  (** run [command] in directory [cwd] with both output streams captured *)
  Popen : list str → str → World → PopenOutcome * World;
  (** [os.fsdecode] *)
  fsdecode : bytes → str;
  (** [str.isprintable] of one code point *)
  isprintable : N → bool;
}.

(** ** [find_git_root] *)

Definition has_git `{Host} (w : World) (p : PurePath) : bool :=
  is_dir w (p /. lit ".git").

(** The [while] loop of [find_git_root]. *)
Equations? climb `{Host} (w : World) (path : PurePath) : option PurePath
  by wf (length (parts path)) lt :=
  climb w path with has_git w path := {
    | true := Some path
    | false with decide (path = parent path) := {
        | left _ := None
        | right Hne := climb w (parent path) } }.
Proof.
  revert Hne. unfold parent. destruct (parts path) as [|x l] eqn:E; [done|].
  intros _. cbn [parts].
  assert (∀ (y : str) k, S (length (removelast (y :: k))) = length (y :: k)) as Hlen.
  { intros y k. revert y. induction k as [|z k IH]; intros y; [done|].
    change (removelast (y :: z :: k)) with (y :: removelast (z :: k)).
    change (length (y :: removelast (z :: k))) with (S (length (removelast (z :: k)))).
    by rewrite IH. }
  specialize (Hlen x l). lia.
Qed.

Definition find_git_root `{Host} (w : World) (path : PathLike) : option PurePath :=
  climb w (Path path).

(** ** [class GitFolder] *)

Module GitFolder.

(** The attributes of an instance. *)
Record t := { _cwd : PurePath; _root : PurePath; _git_exec : str }.

Definition default_git_exec : str := lit "git".

(** [GitFolder(cwd, git_exec)] *)
Definition __init__ `{Host} (cwd : PathLike) (git_exec : str) (w : World) : result t :=
  let cwd := resolve w (Path cwd) in
  match find_git_root w (OfPath cwd) with
  | None =>
      Raise (NotGitRepositoryError
               (lit "Unable to find git repository root from: " ++ to_str cwd))
  | Some root => Return {| _cwd := cwd; _root := root; _git_exec := git_exec |}
  end.

(** A method runs on the instance and the world and hands both back with
    its outcome. *)
Definition M `{Host} (A : Type) : Type := t → World → result A * t * World.

#[global] Instance M_ret `{Host} : MRet M := λ A a self w, (Return a, self, w).
#[global] Instance M_bind `{Host} : MBind M := λ A B k m self w,
  match m self w with
  | (Return a, self', w') => k a self' w'
  | (Raise e, self', w') => (Raise e, self', w')
  end.
Definition raise `{Host} {A} (e : PyException) : M A := λ self w, (Raise e, self, w).
(** reading an attribute of [self] *)
Definition attr `{Host} {A} (f : t → A) : M A := λ self w, (Return (f self), self, w).
(** [try: body except ... as err: handler err]; a handler that matches
    no clause raises [err] again. *)
Definition try_except `{Host} {A} (body : M A) (handler : PyException → M A) : M A :=
  λ self w,
    match body self w with
    | (Raise e, self', w') => handler e self' w'
    | r => r
    end.

(** the properties [root] and [cwd] *)
Definition root `{Host} : M PurePath := attr _root.
Definition cwd `{Host} : M PurePath := attr _cwd.

(** [subprocess.check_output(command, cwd=cwd, stderr=subprocess.PIPE)] *)
Definition check_output `{Host} (command : list str) (cwd : str) : M bytes :=
  λ self w,
    match Popen command cwd w with
    | (SpawnFailed e, w') => (Raise e, self, w')
    | (Exited 0 out _, w') => (Return out, self, w')
    | (Exited rc out err, w') => (Raise (CalledProcessError rc command out err), self, w')
    end.

(** [bs.decode()] *)
Definition decode `{Host} (bs : bytes) : M str :=
  match codecs.decode bs with
  | Some s => mret s
  | None => raise (UnicodeDecodeError bs)
  end.

(** The f-string of the [GitError]. *)
Definition failure_message `{Host} (command : list str) (cwd : PurePath) (text : str) : str :=
  lit "git command " ++ builtins.repr isprintable (join (lit " ") command)
    ++ lit " failed in " ++ to_str cwd ++ lit ": " ++ text.

Definition run_git `{Host} (args : list str) : M bytes :=
  git_exec ← attr _git_exec;
  let command := git_exec :: args in
  try_except
    (d ← cwd; check_output command (to_str d))
    (λ err,
       match err with
       | FileNotFoundError => raise (GitNotFoundError err)
       | CalledProcessError _ _ _ stderr =>
           d ← cwd;
           text ← decode stderr;
           raise (GitError (failure_message command d text) err)
       | _ => raise err
       end).

(** The set comprehension shared by the three queries. *)
Definition locs (outb : bytes) : list bytes :=
  List.filter nonempty (split NUL (strip NUL outb)).

Definition paths_of `{Host} (d : PurePath) (outb : bytes) : gset PurePath :=
  list_to_set ((λ loc, d /: PurePosixPath (fsdecode loc)) <$> locs outb).

Definition tracked_files `{Host} : M (gset PurePath) :=
  outb ← run_git [lit "ls-files"; lit "--recurse-submodules"; lit "-z"];
  d ← cwd;
  mret (paths_of d outb).

Definition new_files `{Host} : M (gset PurePath) :=
  outb ← run_git [lit "ls-files"; lit "--others"; lit "--exclude-standard"; lit "-z"];
  d ← cwd;
  mret (paths_of d outb).

Definition removed_files `{Host} : M (gset PurePath) :=
  outb ← run_git [lit "ls-files"; lit "--deleted"; lit "-z"];
  d ← cwd;
  mret (paths_of d outb).

(** [repr(self)] *)
Definition __repr__ `{Host} : M str :=
  d ← cwd;
  mret (lit "GitFolder(" ++ builtins.repr isprintable (to_str d) ++ lit ")").

End GitFolder.

(** ** A host for the scenarios

    The directories are those listed, paths resolve to themselves, and the
    only program on the search path is [git]: running it ends as [git]
    says (it exits with a status, or it is there and cannot be started),
    and any other executable, or [git] itself when it is not installed,
    is not found.  [isprintable] is consulted for code points above 0x7F
    only; the scenarios have none. *)
Definition scenario_host (dirs : list PurePath) (git : option PopenOutcome) : Host := {|
  World := unit;
  is_dir := λ _ p, bool_decide (p ∈ dirs);
  resolve := λ _ p, p;
  Popen := λ command _ w,
    match command, git with
    | exe :: _, Some outcome =>
        if decide (exe = lit "git") then (outcome, w) else (SpawnFailed FileNotFoundError, w)
    | _, _ => (SpawnFailed FileNotFoundError, w)
    end;
  fsdecode := codecs.decode_surrogateescape;
  isprintable := λ _, false;
|}.

(** [/repo/.git] is a directory and nothing else is. *)
Definition repo_dirs : list PurePath := [PurePosixPath (lit "/repo/.git")].

(** ** Notions the properties are stated with *)

(** [r] is the first member of the lineage of [p] with a [.git] directory
    right beneath it. *)
Definition nearest_git `{Host} (w : World) (p r : PurePath) : Prop :=
  ∃ i, lineage p !! i = Some r ∧ has_git w r = true ∧
       ∀ j q, (j < i)%nat → lineage p !! j = Some q → has_git w q = false.

(** The path [comps] below [r]. *)
Definition below (r : PurePath) (comps : list str) : PurePath :=
  {| root := root r; parts := parts r ++ comps |}.

(** The three queries, their arguments to [git], and the method of each. *)
Inductive Query := TrackedFiles | NewFiles | RemovedFiles.

Definition query_args (q : Query) : list str :=
  match q with
  | TrackedFiles => [lit "ls-files"; lit "--recurse-submodules"; lit "-z"]
  | NewFiles => [lit "ls-files"; lit "--others"; lit "--exclude-standard"; lit "-z"]
  | RemovedFiles => [lit "ls-files"; lit "--deleted"; lit "-z"]
  end.

Definition run_query `{Host} (q : Query) : GitFolder.M (gset PurePath) :=
  match q with
  | TrackedFiles => GitFolder.tracked_files
  | NewFiles => GitFolder.new_files
  | RemovedFiles => GitFolder.removed_files
  end.

(** The parsing as the specification words it: one trailing null byte,
    if present, is taken off, the rest is split on null bytes, and the
    empty records are dropped. *)
Definition strip_trailing_one {A} `{EqDecision A} (c : A) (s : list A) : list A :=
  match reverse s with
  | x :: r => if decide (x = c) then reverse r else s
  | [] => s
  end.

Definition records_spec (outb : bytes) : list bytes :=
  List.filter nonempty (split NUL (strip_trailing_one NUL outb)).

(** The handle on [/repo/sub] in the repository [/repo]. *)
Definition sub_handle : GitFolder.t :=
  {| GitFolder._cwd := PurePosixPath (lit "/repo/sub");
     GitFolder._root := PurePosixPath (lit "/repo");
     GitFolder._git_exec := GitFolder.default_git_exec |}.

(** [b"a.txt\0dir/b.txt\0"] *)
Definition two_records : bytes :=
  blit "a.txt" ++ [NUL] ++ blit "dir/b.txt" ++ [NUL].

(** What a caller may do with an instance, one operation after another. *)
Inductive Op :=
| OpRoot
| OpCwd
| OpRunGit (args : list str)
| OpQuery (q : Query).

(** The instance and the world after one operation, whether it returned
    or raised. *)
Definition after_op `{Host} (op : Op) (self : GitFolder.t) (w : World) : GitFolder.t * World :=
  match op with
  | OpRoot => let '(_, self', w') := GitFolder.root self w in (self', w')
  | OpCwd => let '(_, self', w') := GitFolder.cwd self w in (self', w')
  | OpRunGit args => let '(_, self', w') := GitFolder.run_git args self w in (self', w')
  | OpQuery q => let '(_, self', w') := run_query q self w in (self', w')
  end.

(** The instance as it is after each operation of a sequence. *)
Fixpoint handles_after `{Host} (ops : list Op) (self : GitFolder.t) (w : World)
  : list GitFolder.t :=
  match ops with
  | [] => []
  | op :: ops' =>
      let '(self', w') := after_op op self w in
      self' :: handles_after ops' self' w'
  end.

(** [r] is [c] or one of its parents: same root, and the components of
    [r] begin those of [c]. *)
Definition ancestor_or_self (r c : PurePath) : Prop :=
  root r = root c ∧ parts r `prefix_of` parts c.

(** The error kinds of the specification, the class each one is raised
    as, and a caller that tells them apart with [except] clauses, the
    subclasses before their base. *)
Inductive Kind := NotGitRepository | ExecutableNotFound | CommandFailed.

Definition class_of_kind (k : Kind) : ExcClass :=
  match k with
  | NotGitRepository => NotGitRepositoryError_
  | ExecutableNotFound => GitNotFoundError_
  | CommandFailed => GitError_
  end.

Definition kind_of (e : PyException) : option Kind :=
  if isinstance e NotGitRepositoryError_ then Some NotGitRepository
  else if isinstance e GitNotFoundError_ then Some ExecutableNotFound
  else if isinstance e GitError_ then Some CommandFailed
  else None.

(** [sub in s] *)
Definition contains (s sub : str) : Prop := ∃ pre post, s = pre ++ sub ++ post.

(** The characters [repr] copies as they are whatever the quote:
    printable ASCII other than the quotes and the backslash. *)
Definition plain (ch : N) : bool :=
  (32 <=? ch) && (ch <? 0x7F)
  && negb (ch =? builtins.squote) && negb (ch =? builtins.dquote)
  && negb (ch =? builtins.backslash).

(** [git] exits with status 1 and the given standard error. *)
Definition failing_git (stderr : bytes) : Host :=
  scenario_host repo_dirs (Some (Exited 1 [] stderr)).

(** What [git ls-files -z] writes for a list of names: each name with a
    null byte after it. *)
Definition z_output (names : list bytes) : bytes :=
  mjoin ((λ name, name ++ [NUL]) <$> names).

(** All bytes are below 0x80. *)
Definition is_ascii (bs : bytes) : bool :=
  forallb (λ b, Byte.to_N b <? 0x80) bs.

(** [p] is a path as pathlib builds them: no component is empty, is
    ['.'] or holds a slash. *)
Definition well_formed (p : PurePath) : Prop :=
  Forall (λ x, kept x = true ∧ slash ∉ x) (parts p).

(** A host whose state is the list of its directories; nothing can be
    run on it. *)
Definition dirs_host : Host := {|
  World := list PurePath;
  is_dir := λ dirs p, bool_decide (p ∈ dirs);
  resolve := λ _ p, p;
  Popen := λ _ _ dirs, (SpawnFailed FileNotFoundError, dirs);
  fsdecode := codecs.decode_surrogateescape;
  isprintable := λ _, false;
|}.

(** * Properties *)

(** ** Paths *)

Lemma joinstr_git (p : PurePath) :
  p /. lit ".git" = {| root := root p; parts := parts p ++ [lit ".git"] |}.
Proof. reflexivity. Qed.

Lemma parent_fixed (p : PurePath) : p = parent p ↔ parts p = [].
Proof.
  unfold parent. destruct p as [r l]. simpl. destruct l as [|x l]; [done|].
  split; [|done]. intros Heq. apply (f_equal (λ q, length (parts q))) in Heq.
  simpl in Heq. exfalso. revert x Heq. induction l as [|y l IH]; intros x Heq; [done|].
  change (removelast (x :: y :: l)) with (x :: removelast (y :: l)) in Heq.
  simpl in Heq. injection Heq as Heq. by apply (IH y).
Qed.

Lemma removelast_take {A} (l : list A) : removelast l = take (pred (length l)) l.
Proof.
  induction l as [|x l IH]; [done|]. destruct l as [|y l]; [done|].
  change (removelast (x :: y :: l)) with (x :: removelast (y :: l)).
  rewrite IH. done.
Qed.

Lemma parent_shorter (p : PurePath) :
  p ≠ parent p → (length (parts (parent p)) < length (parts p))%nat.
Proof.
  rewrite parent_fixed. unfold parent. destruct (parts p) as [|x l] eqn:E; [done|].
  intros _. cbn [parts]. rewrite removelast_take, length_take. simpl. lia.
Qed.

Lemma lineage_fixed (p : PurePath) : parts p = [] → lineage p = [p].
Proof. destruct p as [r l]. simpl. intros ->. done. Qed.

Lemma lineage_parent (p : PurePath) :
  parts p ≠ [] → lineage p = p :: lineage (parent p).
Proof.
  intros Hne. unfold lineage at 1. f_equal. unfold parents at 1.
  destruct p as [r l]. simpl in *.
  destruct (length l) as [|m] eqn:Hlen; [by destruct l|].
  rewrite seq_S, reverse_snoc. simpl.
  assert (parent {| root := r; parts := l |} = {| root := r; parts := take m l |}) as ->.
  { unfold parent. simpl. destruct l; [done|]. rewrite removelast_take, Hlen. done. }
  unfold lineage, parents. simpl. f_equal.
  rewrite length_take, Hlen, Nat.min_l by lia.
  apply list_fmap_ext. intros i k Hk.
  assert (k < m)%nat.
  { apply list_elem_of_lookup_2 in Hk. rewrite elem_of_reverse, elem_of_seq in Hk. lia. }
  by rewrite take_take, Nat.min_l by lia.
Qed.

(** Every member of the lineage has the root of the path and a prefix of
    its components. *)
Lemma elem_of_lineage (p q : PurePath) :
  q ∈ lineage p ↔ root q = root p ∧ parts q `prefix_of` parts p.
Proof.
  unfold lineage, parents. rewrite elem_of_cons, list_elem_of_fmap. split.
  - intros [->|(k & -> & Hk)]; [done|]. simpl. split; [done|]. apply prefix_take.
  - intros [Hr [k Hk]]. destruct q as [rq lq], p as [rp lp]. simpl in *. subst rq lp.
    destruct k as [|x k _] using rev_ind.
    + left. by rewrite app_nil_r.
    + right. exists (length lq). split.
      * by rewrite take_app_length.
      * rewrite elem_of_reverse, elem_of_seq, !length_app. simpl. lia.
Qed.

(** ** [find_git_root] *)

Lemma climb_step `{Host} (w : World) (p : PurePath) :
  climb w p =
    if has_git w p then Some p
    else if decide (p = parent p) then None else climb w (parent p).
Proof.
  funelim (climb w p);
    repeat match goal with
           | E : has_git _ _ = _ |- _ => rewrite E; clear E
           | E : decide _ = _ |- _ => rewrite E; clear E
           end; done.
Qed.


Lemma climb_list_find `{Host} (w : World) (p : PurePath) :
  climb w p = snd <$> list_find (λ q, has_git w q = true) (lineage p).
Proof.
  remember (length (parts p)) as n eqn:Hn. revert p Hn.
  induction n as [n IH] using lt_wf_ind. intros p ->.
  rewrite climb_step. destruct (has_git w p) eqn:Hg.
  { unfold lineage. simpl. by rewrite decide_True. }
  destruct (decide (p = parent p)) as [Hfix|Hne].
  - apply parent_fixed in Hfix. rewrite (lineage_fixed _ Hfix). simpl.
    rewrite decide_False; [done|]. by rewrite Hg.
  - assert (parts p ≠ []) as Hparts by (by rewrite <- parent_fixed).
    rewrite (IH (length (parts (parent p)))); [|by apply parent_shorter|done].
    rewrite (lineage_parent _ Hparts).
    generalize (lineage (parent p)). intros l. simpl.
    rewrite decide_False by (by rewrite Hg).
    by destruct (list_find _ l) as [[??]|].
Qed.

Lemma climb_nearest `{Host} (w : World) (p r : PurePath) :
  climb w p = Some r ↔ nearest_git w p r.
Proof.
  rewrite climb_list_find. unfold nearest_git. split.
  - intros Hf. apply fmap_Some in Hf as ([i q] & Hf & ->).
    apply list_find_Some in Hf as (Hi & Hq & Hbefore). exists i.
    split_and!; [done..|]. intros j q' Hj Hq'.
    specialize (Hbefore j q' Hq' Hj). by destruct (has_git w q').
  - intros (i & Hi & Hr & Hbefore). apply fmap_Some. exists (i, r). split; [|done].
    apply list_find_Some. split_and!; [done..|].
    intros j q' Hq' Hj. by rewrite (Hbefore j q' Hj Hq').
Qed.

Lemma climb_None `{Host} (w : World) (p : PurePath) :
  climb w p = None ↔ ∀ q, q ∈ lineage p → has_git w q = false.
Proof.
  rewrite climb_list_find, fmap_None, list_find_None, Forall_forall.
  split; intros Hall q Hq; specialize (Hall q Hq); by destruct (has_git w q).
Qed.

Lemma lineage_lookup (p : PurePath) (j : nat) :
  (j ≤ length (parts p))%nat →
  lineage p !! j =
    Some {| root := root p; parts := take (length (parts p) - j) (parts p) |}.
Proof.
  intros Hj. destruct j as [|j].
  { simpl. rewrite Nat.sub_0_r, firstn_all. by destruct p. }
  unfold lineage, parents. simpl. rewrite list_lookup_fmap.
  rewrite reverse_lookup by (rewrite length_seq; lia).
  rewrite length_seq, lookup_seq_lt by lia. done.
Qed.

Lemma lineage_below (r : PurePath) (comps : list str) (j : nat) :
  (j ≤ length comps)%nat →
  lineage (below r comps) !! j = Some (below r (take (length comps - j) comps)).
Proof.
  intros Hj. rewrite lineage_lookup by (simpl; rewrite length_app; lia).
  unfold below. simpl. do 2 f_equal. rewrite length_app.
  replace (length (parts r) + length comps - j)%nat
    with (length (parts r) + (length comps - j))%nat by lia.
  by rewrite take_app_add.
Qed.

(** C1.  [find_git_root] returns the nearest member of the lineage of the
    path (the path itself, then its parents) that has a [.git] directory
    right beneath it, and [None] exactly when no member has one.  In
    particular, for a path any number of components below a directory
    [r] holding [.git], with no [.git] in the directories in between,
    the answer is [r], whatever that number is. *)
Theorem find_git_root_nearest `{Host} (w : World) (x : PathLike) :
  (∀ r, find_git_root w x = Some r ↔ nearest_git w (Path x) r)
  ∧ (find_git_root w x = None ↔ ∀ q, q ∈ lineage (Path x) → has_git w q = false)
  ∧ (∀ r comps,
       Path x = below r comps →
       has_git w r = true →
       (∀ k, (0 < k ≤ length comps)%nat → has_git w (below r (take k comps)) = false) →
       find_git_root w x = Some r).
Proof.
  unfold find_git_root. split_and!.
  - intros r. apply climb_nearest.
  - apply climb_None.
  - intros r comps -> Hr Hbetween. apply climb_nearest.
    exists (length comps). split_and!.
    + rewrite lineage_below by done. rewrite Nat.sub_diag. unfold below. simpl.
      rewrite app_nil_r. by destruct r.
    + done.
    + intros j q Hj Hq. rewrite lineage_below in Hq by lia.
      injection Hq as <-. apply Hbetween. lia.
Qed.

Lemma find_git_root_nearest_witness :
  find_git_root (H := scenario_host repo_dirs None) tt (OfStr (lit "/repo/sub/dir"))
  = Some (PurePosixPath (lit "/repo")).
Proof.
  apply (proj2 (proj2 (find_git_root_nearest (H := scenario_host repo_dirs None) tt
                         (OfStr (lit "/repo/sub/dir")))))
    with (comps := [lit "sub"; lit "dir"]).
  - reflexivity.
  - reflexivity.
  - intros k Hk. simpl in Hk.
    destruct k as [|[|[|k]]]; [lia|reflexivity|reflexivity|lia].
Defined.

Example lineage_relative :
  to_str <$> lineage (PurePosixPath (lit "sub/dir")) = [lit "sub/dir"; lit "sub"; lit "."].
Proof. reflexivity. Qed.

(** ** Splitting the output of [git ls-files -z] *)

Section splitting.
Context {A : Type} `{EqDecision A}.
Implicit Types (c : A) (s : list A).

Lemma split_not_nil c s : split c s ≠ [].
Proof. destruct s as [|x s]; simpl; [done|]. case_decide; [done|]. by destruct (split c s). Qed.

Lemma split_sep_cons c s : split c (c :: s) = [] :: split c s.
Proof. simpl. by rewrite decide_True. Qed.

Lemma split_snoc_sep c s : split c (s ++ [c]) = split c s ++ [[]].
Proof.
  induction s as [|x s IH]; simpl.
  - by rewrite decide_True.
  - case_decide; [by rewrite IH|]. rewrite IH.
    pose proof (split_not_nil c s). by destruct (split c s).
Qed.

Lemma nonempty_split_lstrip c s :
  List.filter nonempty (split c (lstrip c s)) = List.filter nonempty (split c s).
Proof.
  induction s as [|x s IH]; [done|]. cbn [lstrip]. case_decide; [|done].
  subst x. by rewrite split_sep_cons, IH.
Qed.

Lemma nonempty_split_snoc_sep c s :
  List.filter nonempty (split c (s ++ [c])) = List.filter nonempty (split c s).
Proof. rewrite split_snoc_sep, List.filter_app. simpl. by rewrite app_nil_r. Qed.

Lemma rstrip_snoc c s x :
  rstrip c (s ++ [x]) = if decide (x = c) then rstrip c s else s ++ [x].
Proof.
  unfold rstrip. rewrite reverse_snoc. cbn [lstrip]. case_decide; [done|].
  by rewrite reverse_cons, reverse_involutive.
Qed.

Lemma nonempty_split_rstrip c s :
  List.filter nonempty (split c (rstrip c s)) = List.filter nonempty (split c s).
Proof.
  induction s as [|x s IH] using rev_ind; [done|].
  rewrite rstrip_snoc. case_decide; [|done]. subst x.
  by rewrite nonempty_split_snoc_sep.
Qed.

Lemma nonempty_split_strip c s :
  List.filter nonempty (split c (strip c s)) = List.filter nonempty (split c s).
Proof. unfold strip. by rewrite nonempty_split_rstrip, nonempty_split_lstrip. Qed.

Lemma nonempty_split_strip_trailing_one c s :
  List.filter nonempty (split c (strip_trailing_one c s))
  = List.filter nonempty (split c s).
Proof.
  unfold strip_trailing_one. destruct s as [|x s _] using rev_ind; [done|].
  rewrite reverse_snoc. case_decide; [|done]. subst x.
  by rewrite reverse_involutive, nonempty_split_snoc_sep.
Qed.

(** The records of [s.split(c)] hold no [c], and putting [c] between
    them gives [s] back. *)
Lemma join_split c s : join [c] (split c s) = s.
Proof.
  induction s as [|x s IH]; [done|]. simpl. case_decide.
  - subst x. pose proof (split_not_nil c s).
    destruct (split c s) as [|w ws] eqn:E; [done|]. by rewrite <- IH.
  - pose proof (split_not_nil c s).
    destruct (split c s) as [|w ws] eqn:E; [done|]. rewrite <- IH.
    by destruct ws.
Qed.

Lemma split_no_sep c s w : w ∈ split c s → c ∉ w.
Proof.
  revert w. induction s as [|x s IH]; intros w; simpl.
  - rewrite list_elem_of_singleton. intros ->. apply not_elem_of_nil.
  - case_decide.
    + rewrite elem_of_cons. intros [->|Hw]; [apply not_elem_of_nil|by apply IH].
    + pose proof (split_not_nil c s).
      destruct (split c s) as [|w' ws] eqn:E; [done|].
      rewrite elem_of_cons. intros [->|Hw].
      * rewrite not_elem_of_cons. split; [done|]. apply IH. by left.
      * apply IH. by right.
Qed.

End splitting.

Lemma locs_split (outb : bytes) :
  GitFolder.locs outb = List.filter nonempty (split NUL outb).
Proof. apply (nonempty_split_strip NUL outb). Qed.

Lemma elem_of_locs (outb loc : bytes) :
  loc ∈ GitFolder.locs outb ↔ loc ∈ split NUL outb ∧ loc ≠ [].
Proof.
  rewrite locs_split, !list_elem_of_In, List.filter_In. unfold nonempty.
  rewrite negb_true_iff, bool_decide_eq_false. done.
Qed.

Lemma paths_of_nil `{Host} (d : PurePath) : GitFolder.paths_of d [] = ∅.
Proof. reflexivity. Qed.

(** ** [run_git] and the queries, outcome by outcome *)

Section outcomes.
Context `{Host}.
Implicit Types (self : GitFolder.t) (w : World) (args : list str).

Lemma run_git_ok self w w' args outb err :
  Popen (GitFolder._git_exec self :: args) (to_str (GitFolder._cwd self)) w = (Exited 0 outb err, w') →
  GitFolder.run_git args self w = (Return outb, self, w').
Proof.
  intros HP. unfold GitFolder.run_git, mbind, GitFolder.M_bind, GitFolder.attr,
    GitFolder.try_except, GitFolder.cwd, GitFolder.check_output. simpl.
  by rewrite HP.
Qed.

Lemma run_git_not_found self w w' args :
  Popen (GitFolder._git_exec self :: args) (to_str (GitFolder._cwd self)) w = (SpawnFailed FileNotFoundError, w') →
  GitFolder.run_git args self w
  = (Raise (GitNotFoundError FileNotFoundError), self, w').
Proof.
  intros HP. unfold GitFolder.run_git, mbind, GitFolder.M_bind, GitFolder.attr,
    GitFolder.try_except, GitFolder.cwd, GitFolder.check_output. simpl.
  by rewrite HP.
Qed.

Lemma run_git_failed self w w' args rc outb err text :
  Popen (GitFolder._git_exec self :: args) (to_str (GitFolder._cwd self)) w = (Exited rc outb err, w') →
  rc ≠ 0%Z →
  codecs.decode err = Some text →
  GitFolder.run_git args self w
  = (Raise (GitError
              (GitFolder.failure_message (GitFolder._git_exec self :: args) (GitFolder._cwd self) text)
              (CalledProcessError rc (GitFolder._git_exec self :: args) outb err)),
     self, w').
Proof.
  intros HP Hrc Htext. unfold GitFolder.run_git, mbind, GitFolder.M_bind,
    GitFolder.attr, GitFolder.try_except, GitFolder.cwd, GitFolder.check_output,
    GitFolder.decode. simpl. rewrite HP.
  destruct rc; [done| |]; simpl; by rewrite Htext.
Qed.

Lemma run_git_undecodable self w w' args rc outb err :
  Popen (GitFolder._git_exec self :: args) (to_str (GitFolder._cwd self)) w = (Exited rc outb err, w') →
  rc ≠ 0%Z →
  codecs.decode err = None →
  GitFolder.run_git args self w = (Raise (UnicodeDecodeError err), self, w').
Proof.
  intros HP Hrc Htext. unfold GitFolder.run_git, mbind, GitFolder.M_bind,
    GitFolder.attr, GitFolder.try_except, GitFolder.cwd, GitFolder.check_output,
    GitFolder.decode. simpl. rewrite HP.
  destruct rc; [done| |]; simpl; by rewrite Htext.
Qed.

(** A failure to start the process that neither [except] clause names
    goes through [run_git] as it is. *)
Lemma run_git_passes_on self w w' args e :
  Popen (GitFolder._git_exec self :: args) (to_str (GitFolder._cwd self)) w
  = (SpawnFailed e, w') →
  isinstance e FileNotFoundError_ = false →
  isinstance e CalledProcessError_ = false →
  GitFolder.run_git args self w = (Raise e, self, w').
Proof.
  intros HP Hnf Hcp. unfold GitFolder.run_git, mbind, GitFolder.M_bind, GitFolder.attr,
    GitFolder.try_except, GitFolder.cwd, GitFolder.check_output. simpl.
  rewrite HP. by destruct e.
Qed.

(** Whatever happens, [run_git] leaves the instance as it found it. *)
Lemma run_git_self self w args : (GitFolder.run_git args self w).1.2 = self.
Proof.
  unfold GitFolder.run_git, mbind, GitFolder.M_bind, GitFolder.attr,
    GitFolder.try_except, GitFolder.cwd, GitFolder.check_output,
    GitFolder.decode, GitFolder.raise. simpl.
  destruct (Popen _ _ w) as [[e|rc outb err] w'].
  - destruct e; try done. simpl. by destruct (codecs.decode _).
  - destruct rc; [done| |]; simpl; by destruct (codecs.decode _).
Qed.

Lemma run_query_unfold (q : Query) :
  run_query q =
    (outb ← GitFolder.run_git (query_args q);
     d ← GitFolder.cwd;
     mret (GitFolder.paths_of d outb)).
Proof. by destruct q. Qed.

Lemma run_query_ok (q : Query) self w w' outb err :
  Popen (GitFolder._git_exec self :: (query_args q)) (to_str (GitFolder._cwd self)) w = (Exited 0 outb err, w') →
  run_query q self w = (Return (GitFolder.paths_of (GitFolder._cwd self) outb), self, w').
Proof.
  intros HP. rewrite run_query_unfold. unfold mbind, GitFolder.M_bind at 1.
  by rewrite (run_git_ok _ _ _ _ _ _ HP).
Qed.

(** A query fails as its [run_git] fails: there is no handler in between. *)
Lemma run_query_raise (q : Query) self w self' w' e :
  GitFolder.run_git (query_args q) self w = (Raise e, self', w') →
  run_query q self w = (Raise e, self', w').
Proof.
  intros Hrun. rewrite run_query_unfold. unfold mbind, GitFolder.M_bind at 1.
  by rewrite Hrun.
Qed.

Lemma run_query_self (q : Query) self w : (run_query q self w).1.2 = self.
Proof.
  rewrite run_query_unfold. unfold mbind, GitFolder.M_bind at 1.
  pose proof (run_git_self self w (query_args q)) as Hself.
  destruct (GitFolder.run_git (query_args q) self w) as [[[outb|e] self'] w'];
    simpl in *; by subst.
Qed.

Lemma elem_of_paths_of (d p : PurePath) (outb : bytes) :
  p ∈ GitFolder.paths_of d outb ↔
  ∃ loc, loc ∈ split NUL outb ∧ loc ≠ [] ∧ p = d /: PurePosixPath (fsdecode loc).
Proof.
  unfold GitFolder.paths_of. rewrite elem_of_list_to_set, list_elem_of_fmap.
  split; intros (loc & H1 & H2).
  - apply elem_of_locs in H2 as [??]. by exists loc.
  - destruct H2 as [? ->]. exists loc. split; [done|]. by apply elem_of_locs.
Qed.

End outcomes.

(** C3.  The records the three queries work on are those the
    specification describes: take one trailing null byte off, split on
    null bytes, drop the empty records.  No record is empty, and when
    [git] prints zero bytes each query returns the empty set. *)
Theorem parsing_discards_empty_records `{Host} (outb : bytes) :
  GitFolder.locs outb = records_spec outb
  ∧ (∀ loc, loc ∈ GitFolder.locs outb → loc ≠ [])
  ∧ (∀ d, GitFolder.paths_of d [] = ∅)
  ∧ (∀ q self w w' err,
       Popen (GitFolder._git_exec self :: query_args q)
             (to_str (GitFolder._cwd self)) w = (Exited 0 [] err, w') →
       run_query q self w = (Return ∅, self, w')).
Proof.
  split_and!.
  - rewrite locs_split. unfold records_spec. symmetry.
    apply (nonempty_split_strip_trailing_one NUL outb).
  - intros loc. rewrite elem_of_locs. by intros [_ ?].
  - apply paths_of_nil.
  - intros q self w w' err HP. by rewrite (run_query_ok _ _ _ _ _ _ HP).
Qed.

Lemma parsing_discards_empty_records_witness :
  blit "a.txt" ≠ []
  ∧ run_query (H := scenario_host repo_dirs (Some (Exited 0 [] []))) TrackedFiles
      sub_handle tt = (Return ∅, sub_handle, tt).
Proof.
  pose proof (parsing_discards_empty_records
                (H := scenario_host repo_dirs (Some (Exited 0 [] []))) two_records)
    as (_ & Hne & _ & Hquery).
  split.
  - apply Hne. vm_compute. apply list_elem_of_here.
  - apply (Hquery TrackedFiles sub_handle tt tt []). reflexivity.
Defined.

(** C2.  When [git] ends with status 0, a query returns the set of the
    paths [cwd / PurePosixPath(os.fsdecode(loc))], one for each non-empty
    record [loc] between the null bytes of the output; for a record
    that names a relative path this is the working directory followed by
    the components of the record.  In the scenario of the specification
    the set is [{/repo/sub/a.txt, /repo/sub/dir/b.txt}]. *)
Theorem query_joins_records_with_cwd :
  (∀ (H : Host) (q : Query) (self : GitFolder.t) (w w' : World) (outb err : bytes),
     Popen (GitFolder._git_exec self :: query_args q)
           (to_str (GitFolder._cwd self)) w = (Exited 0 outb err, w') →
     ∃ files : gset PurePath,
       run_query q self w = (Return files, self, w')
       ∧ (∀ p, p ∈ files ↔
               ∃ loc, loc ∈ split NUL outb ∧ loc ≠ []
                      ∧ p = GitFolder._cwd self /: PurePosixPath (fsdecode loc))
       ∧ (∀ loc, loc ∈ split NUL outb → loc ≠ [] →
                 root (PurePosixPath (fsdecode loc)) = NoRoot →
                 below (GitFolder._cwd self) (parts (PurePosixPath (fsdecode loc)))
                 ∈ files))
  ∧ (∀ q : Query,
       let H := scenario_host repo_dirs (Some (Exited 0 two_records [])) in
       GitFolder.__init__ (OfStr (lit "/repo/sub")) GitFolder.default_git_exec tt
       = Return sub_handle
       ∧ run_query q sub_handle tt
         = (Return {[ PurePosixPath (lit "/repo/sub/a.txt");
                      PurePosixPath (lit "/repo/sub/dir/b.txt") ]},
            sub_handle, tt)).
Proof.
  split.
  - intros H q self w w' outb err HP.
    exists (GitFolder.paths_of (GitFolder._cwd self) outb). split_and!.
    + by apply run_query_ok with err.
    + intros p. apply elem_of_paths_of.
    + intros loc Hloc Hne Hrel. apply elem_of_paths_of. exists loc.
      split_and!; [done..|]. unfold joinpath, below. by rewrite Hrel.
  - intros q H. split; [reflexivity|].
    rewrite (run_query_ok (H := H) q sub_handle tt tt two_records []) by by destruct q.
    reflexivity.
Qed.

Lemma query_joins_records_with_cwd_witness :
  ∃ files : gset PurePath,
    run_query (H := scenario_host repo_dirs (Some (Exited 0 two_records [])))
      NewFiles sub_handle tt = (Return files, sub_handle, tt)
    ∧ PurePosixPath (lit "/repo/sub/a.txt") ∈ files.
Proof.
  destruct (proj1 query_joins_records_with_cwd
              (scenario_host repo_dirs (Some (Exited 0 two_records [])))
              NewFiles sub_handle tt tt two_records [] eq_refl)
    as (files & Hrun & _ & Hrel).
  exists files. split; [exact Hrun|].
  apply (Hrel (blit "a.txt")); [|done|reflexivity].
  vm_compute. apply list_elem_of_here.
Defined.

(** ** Absolute records *)

Lemma splitroot_slash (rest : str) : splitroot (slash :: rest) ≠ NoRoot.
Proof.
  unfold splitroot. rewrite bool_decide_eq_false_2 by (simpl; by intros []).
  by destruct (_ || _).
Qed.

Lemma joinpath_absolute (d : PurePath) (rest : str) :
  d /: PurePosixPath (slash :: rest) = PurePosixPath (slash :: rest).
Proof.
  unfold joinpath. pose proof (splitroot_slash rest) as Hroot.
  change (root (PurePosixPath (slash :: rest))) with (splitroot (slash :: rest)).
  by destruct (splitroot (slash :: rest)).
Qed.

(** C10.  A record that decodes to a string beginning with a slash is an
    absolute path: joining it with the working directory gives that path
    again, and the set a query returns holds it as it is.  In the repository
    [/repo], asked from [/repo/sub], the record [/etc/passwd] comes back as
    [/etc/passwd], which is not below [/repo/sub]. *)
Theorem absolute_record_escapes_cwd :
  (∀ (H : Host) (q : Query) (self : GitFolder.t) (w w' : World)
     (outb err loc : bytes) (rest : str),
     Popen (GitFolder._git_exec self :: query_args q)
           (to_str (GitFolder._cwd self)) w = (Exited 0 outb err, w') →
     loc ∈ split NUL outb → loc ≠ [] →
     fsdecode loc = slash :: rest →
     ∃ files : gset PurePath,
       run_query q self w = (Return files, self, w')
       ∧ GitFolder._cwd self /: PurePosixPath (fsdecode loc) = PurePosixPath (fsdecode loc)
       ∧ PurePosixPath (fsdecode loc) ∈ files)
  ∧ (∀ q : Query,
       let H := scenario_host repo_dirs (Some (Exited 0 (blit "/etc/passwd" ++ [NUL]) [])) in
       run_query q sub_handle tt
       = (Return {[ PurePosixPath (lit "/etc/passwd") ]}, sub_handle, tt)
       ∧ ¬ ancestor_or_self (GitFolder._cwd sub_handle) (PurePosixPath (lit "/etc/passwd"))).
Proof.
  split.
  - intros H q self w w' outb err loc rest HP Hloc Hne Hdec.
    exists (GitFolder.paths_of (GitFolder._cwd self) outb). split_and!.
    + by apply run_query_ok with err.
    + rewrite Hdec. apply joinpath_absolute.
    + apply elem_of_paths_of. exists loc. split_and!; [done..|].
      rewrite Hdec. symmetry. apply joinpath_absolute.
  - intros q H. split.
    + rewrite (run_query_ok (H := H) q sub_handle tt tt (blit "/etc/passwd" ++ [NUL]) [])
        by by destruct q.
      reflexivity.
    + intros [_ [k Hk]]. vm_compute in Hk. discriminate Hk.
Qed.

Lemma absolute_record_escapes_cwd_witness :
  ∃ files : gset PurePath,
    run_query (H := scenario_host repo_dirs (Some (Exited 0 (blit "/etc/passwd" ++ [NUL]) [])))
      RemovedFiles sub_handle tt = (Return files, sub_handle, tt)
    ∧ PurePosixPath (lit "/etc/passwd") ∈ files.
Proof.
  destruct (proj1 absolute_record_escapes_cwd
              (scenario_host repo_dirs (Some (Exited 0 (blit "/etc/passwd" ++ [NUL]) [])))
              RemovedFiles sub_handle tt tt (blit "/etc/passwd" ++ [NUL]) []
              (blit "/etc/passwd") (lit "etc/passwd") eq_refl)
    as (files & Hrun & _ & Hin).
  - vm_compute. apply list_elem_of_here.
  - done.
  - reflexivity.
  - exists files. split; [exact Hrun|exact Hin].
Defined.

(** ** Construction *)

(** C4.  [GitFolder(cwd, git_exec)] raises exactly when [find_git_root] of
    the resolved [cwd] is [None]; what it raises then is a
    [NotGitRepositoryError] and nothing else; and when a root is found the
    instance holds the resolved [cwd], that root and [git_exec]. *)
Theorem init_raises_only_not_git_repository `{Host}
    (cwd : PathLike) (git_exec : str) (w : World) :
  ((∃ e, GitFolder.__init__ cwd git_exec w = Raise e)
   ↔ find_git_root w (OfPath (resolve w (Path cwd))) = None)
  ∧ (∀ e, GitFolder.__init__ cwd git_exec w = Raise e →
          type_of e = NotGitRepositoryError_
          ∧ e = NotGitRepositoryError
                  (lit "Unable to find git repository root from: "
                     ++ to_str (resolve w (Path cwd))))
  ∧ (∀ r, find_git_root w (OfPath (resolve w (Path cwd))) = Some r →
          GitFolder.__init__ cwd git_exec w
          = Return {| GitFolder._cwd := resolve w (Path cwd);
                      GitFolder._root := r;
                      GitFolder._git_exec := git_exec |}).
Proof.
  unfold GitFolder.__init__.
  destruct (find_git_root w (OfPath (resolve w (Path cwd)))) as [r|]; split_and!.
  - split; [by intros [e ?]|done].
  - done.
  - by intros ? [= ->].
  - split; [done|]. intros _. by eexists.
  - by intros e [= <-].
  - done.
Qed.

Lemma init_raises_only_not_git_repository_witness :
  type_of (NotGitRepositoryError
             (lit "Unable to find git repository root from: " ++ lit "/tmp/plain"))
  = NotGitRepositoryError_
  ∧ GitFolder.__init__ (H := scenario_host repo_dirs None)
      (OfStr (lit "/repo/sub")) (lit "git") tt = Return sub_handle.
Proof.
  split.
  - apply (proj1 (proj2 (init_raises_only_not_git_repository
                           (H := scenario_host repo_dirs None)
                           (OfStr (lit "/tmp/plain")) (lit "git") tt))).
    + reflexivity.
  - apply (proj2 (proj2 (init_raises_only_not_git_repository
                           (H := scenario_host repo_dirs None)
                           (OfStr (lit "/repo/sub")) (lit "git") tt))
             (PurePosixPath (lit "/repo"))).
    reflexivity.
Defined.

(** ** The instance is never written to *)

Lemma after_op_self `{Host} (op : Op) (self : GitFolder.t) (w : World) :
  (after_op op self w).1 = self.
Proof.
  destruct op as [| |args|q]; simpl.
  - done.
  - done.
  - pose proof (run_git_self self w args).
    by destruct (GitFolder.run_git args self w) as [[? ?] ?].
  - pose proof (run_query_self q self w).
    by destruct (run_query q self w) as [[? ?] ?].
Qed.

Lemma handles_after_self `{Host} (ops : list Op) (self : GitFolder.t) (w : World) :
  Forall (λ h, h = self) (handles_after ops self w).
Proof.
  revert w. induction ops as [|op ops IH]; intros w; simpl; [constructor|].
  pose proof (after_op_self op self w) as Hself.
  destruct (after_op op self w) as [self' w']. simpl in Hself. subst self'.
  constructor; [done|apply IH].
Qed.

Lemma length_handles_after `{Host} (ops : list Op) (self : GitFolder.t) (w : World) :
  length (handles_after ops self w) = length ops.
Proof.
  revert self w. induction ops as [|op ops IH]; intros self w; simpl; [done|].
  destruct (after_op op self w) as [self' w']. simpl. by rewrite IH.
Qed.

(** C9.  After each query of any sequence of queries on an instance that
    [GitFolder(cwd, git_exec)] returned, the three attributes are those set
    at construction: there are as many instance states as queries, and each
    has the resolved [cwd], the root found then, and [git_exec]. *)
Theorem queries_leave_attributes `{Host}
    (cwd : PathLike) (git_exec : str) (w0 : World) (self : GitFolder.t)
    (qs : list Query) (w : World) :
  GitFolder.__init__ cwd git_exec w0 = Return self →
  length (handles_after (OpQuery <$> qs) self w) = length qs
  ∧ ∀ h, h ∈ handles_after (OpQuery <$> qs) self w →
         h = self
         ∧ find_git_root w0 (OfPath (resolve w0 (Path cwd))) = Some (GitFolder._root h)
         ∧ GitFolder._cwd h = resolve w0 (Path cwd)
         ∧ GitFolder._git_exec h = git_exec.
Proof.
  intros Hinit. split.
  { by rewrite length_handles_after, length_fmap. }
  intros h Hh.
  pose proof (handles_after_self (OpQuery <$> qs) self w) as Hall.
  rewrite Forall_forall in Hall. rewrite (Hall h Hh). clear Hall Hh h.
  unfold GitFolder.__init__ in Hinit.
  destruct (find_git_root w0 (OfPath (resolve w0 (Path cwd)))) as [r|]; [|done].
  by injection Hinit as <-.
Qed.

Lemma queries_leave_attributes_witness :
  length (handles_after (H := scenario_host repo_dirs (Some (Exited 0 two_records [])))
            (OpQuery <$> [NewFiles; TrackedFiles; NewFiles; RemovedFiles]) sub_handle tt)
  = 4%nat
  ∧ GitFolder._cwd sub_handle = PurePosixPath (lit "/repo/sub").
Proof.
  destruct (queries_leave_attributes
              (H := scenario_host repo_dirs (Some (Exited 0 two_records [])))
              (OfStr (lit "/repo/sub")) (lit "git") tt sub_handle
              [NewFiles; TrackedFiles; NewFiles; RemovedFiles] tt eq_refl)
    as [Hlen Hattrs].
  split; [exact Hlen|].
  apply (Hattrs sub_handle). vm_compute. apply list_elem_of_here.
Defined.

(** C7.  On every instance that [GitFolder(cwd, git_exec)] returns, the
    root is the working directory or one of its parents and holds a [.git]
    directory; and after each operation of any sequence of operations
    (reading a property, [run_git], a query) this is still so. *)
Theorem root_is_ancestor_of_cwd `{Host}
    (cwd : PathLike) (git_exec : str) (w0 : World) (self : GitFolder.t) :
  GitFolder.__init__ cwd git_exec w0 = Return self →
  ancestor_or_self (GitFolder._root self) (GitFolder._cwd self)
  ∧ has_git w0 (GitFolder._root self) = true
  ∧ ∀ ops w h, h ∈ handles_after ops self w →
               ancestor_or_self (GitFolder._root h) (GitFolder._cwd h).
Proof.
  intros Hinit. unfold GitFolder.__init__ in Hinit.
  destruct (find_git_root w0 (OfPath (resolve w0 (Path cwd)))) as [r|] eqn:Hfind; [|done].
  injection Hinit as <-. simpl.
  apply climb_nearest in Hfind as (i & Hi & Hgit & _).
  assert (ancestor_or_self r (resolve w0 (Path cwd))) as Hanc.
  { apply elem_of_lineage. by apply list_elem_of_lookup_2 in Hi. }
  split_and!; [done..|].
  intros ops w h Hh.
  eapply Forall_forall in Hh; [|apply handles_after_self].
  simpl in Hh. by rewrite Hh.
Qed.

Lemma root_is_ancestor_of_cwd_witness :
  ancestor_or_self (PurePosixPath (lit "/repo")) (PurePosixPath (lit "/repo/sub")).
Proof.
  apply (root_is_ancestor_of_cwd (H := scenario_host repo_dirs None)
           (OfStr (lit "/repo/sub")) (lit "git") tt sub_handle eq_refl).
Defined.

(** ** The executable is missing *)

(** C6 as it is worded fails: a process that cannot be started for
    another reason than a missing executable, here a permission that is
    denied, does not end in [GitNotFoundError]. *)
Lemma launch_failure_is_not_always_git_not_found :
  ¬ (∀ (H : Host) (args : list str) (self : GitFolder.t) (w w' : World) (e : PyException),
       Popen (GitFolder._git_exec self :: args) (to_str (GitFolder._cwd self)) w
       = (SpawnFailed e, w') →
       ∃ cause, GitFolder.run_git args self w = (Raise (GitNotFoundError cause), self, w')).
Proof.
  intros Hclaim.
  destruct (Hclaim (scenario_host repo_dirs (Some (SpawnFailed PermissionError)))
              (query_args TrackedFiles) sub_handle tt tt PermissionError eq_refl)
    as [cause Hrun].
  vm_compute in Hrun. discriminate Hrun.
Qed.

(** C6, amended.  When the process cannot be started because the
    executable is not found ([FileNotFoundError]), [run_git] raises
    [GitNotFoundError], and so does each query; on a machine whose only
    program is [git], an instance made with another executable path fails
    so in each query.  Any other failure to start the process comes out of
    [run_git] unchanged. *)
Theorem missing_executable_raises_git_not_found :
  (∀ (H : Host) (args : list str) (self : GitFolder.t) (w w' : World),
     Popen (GitFolder._git_exec self :: args) (to_str (GitFolder._cwd self)) w
     = (SpawnFailed FileNotFoundError, w') →
     GitFolder.run_git args self w = (Raise (GitNotFoundError FileNotFoundError), self, w'))
  ∧ (∀ (H : Host) (q : Query) (self : GitFolder.t) (w w' : World),
       Popen (GitFolder._git_exec self :: query_args q) (to_str (GitFolder._cwd self)) w
       = (SpawnFailed FileNotFoundError, w') →
       run_query q self w = (Raise (GitNotFoundError FileNotFoundError), self, w')
       ∧ kind_of (GitNotFoundError FileNotFoundError) = Some ExecutableNotFound)
  ∧ (∀ q : Query,
       let H := scenario_host repo_dirs (Some (Exited 0 two_records [])) in
       ∃ self,
         GitFolder.__init__ (OfStr (lit "/repo/sub")) (lit "/no/such/git") tt = Return self
         ∧ run_query q self tt = (Raise (GitNotFoundError FileNotFoundError), self, tt))
  ∧ (∀ (H : Host) (args : list str) (self : GitFolder.t) (w w' : World) (e : PyException),
       Popen (GitFolder._git_exec self :: args) (to_str (GitFolder._cwd self)) w
       = (SpawnFailed e, w') →
       isinstance e FileNotFoundError_ = false →
       isinstance e CalledProcessError_ = false →
       GitFolder.run_git args self w = (Raise e, self, w')).
Proof.
  split_and!.
  - intros H args self w w' HP. by apply run_git_not_found.
  - intros H q self w w' HP. split; [|done].
    apply run_query_raise. by apply run_git_not_found.
  - intros q H. eexists. split; [reflexivity|]. by destruct q.
  - intros H args self w w' e. apply run_git_passes_on.
Qed.

Lemma missing_executable_raises_git_not_found_witness :
  run_query (H := scenario_host repo_dirs None) TrackedFiles sub_handle tt
  = (Raise (GitNotFoundError FileNotFoundError), sub_handle, tt)
  ∧ GitFolder.run_git (H := scenario_host repo_dirs (Some (SpawnFailed PermissionError)))
      [lit "status"] sub_handle tt
    = (Raise PermissionError, sub_handle, tt).
Proof.
  destruct missing_executable_raises_git_not_found as (_ & Hquery & _ & Hother).
  split.
  - apply (Hquery (scenario_host repo_dirs None) TrackedFiles sub_handle tt tt).
    reflexivity.
  - apply (Hother (scenario_host repo_dirs (Some (SpawnFailed PermissionError)))
             [lit "status"] sub_handle tt tt PermissionError); reflexivity.
Defined.

(** ** The error kinds *)

(** Catching the base class alone takes all three kinds. *)
Lemma except_GitError_takes_all (k : Kind) (e : PyException) :
  type_of e = class_of_kind k → isinstance e GitError_ = true.
Proof. unfold isinstance. intros ->. by destruct k. Qed.

(** C8.  The three kinds are raised as three different classes, and a
    caller whose [except] clauses name [NotGitRepositoryError], then
    [GitNotFoundError], then [GitError] lands in the clause of the kind
    that was raised: a failed construction in the first, a query whose
    executable is not found in the second, a query whose [git] exits with
    a non-zero status and a decodable standard error in the third. *)
Theorem error_kinds_distinguishable :
  (∀ k1 k2, class_of_kind k1 = class_of_kind k2 → k1 = k2)
  ∧ (∀ e k, kind_of e = Some k ↔ type_of e = class_of_kind k)
  ∧ (∀ (H : Host) cwd git_exec w e,
       GitFolder.__init__ cwd git_exec w = Raise e → kind_of e = Some NotGitRepository)
  ∧ (∀ (H : Host) q self w w',
       Popen (GitFolder._git_exec self :: query_args q) (to_str (GitFolder._cwd self)) w
       = (SpawnFailed FileNotFoundError, w') →
       ∃ e, run_query q self w = (Raise e, self, w')
            ∧ kind_of e = Some ExecutableNotFound)
  ∧ (∀ (H : Host) q self w w' rc outb err text,
       Popen (GitFolder._git_exec self :: query_args q) (to_str (GitFolder._cwd self)) w
       = (Exited rc outb err, w') →
       rc ≠ 0%Z → codecs.decode err = Some text →
       ∃ e, run_query q self w = (Raise e, self, w')
            ∧ kind_of e = Some CommandFailed).
Proof.
  split_and!.
  - by intros [] [].
  - intros e k. destruct e, k; vm_compute; split; congruence.
  - intros H cwd git_exec w e Hinit. unfold GitFolder.__init__ in Hinit.
    destruct (find_git_root _ _); [done|]. by injection Hinit as <-.
  - intros H q self w w' HP. eexists. split.
    + apply run_query_raise. by apply run_git_not_found.
    + reflexivity.
  - intros H q self w w' rc outb err text HP Hrc Htext. eexists. split.
    + apply run_query_raise. by eapply run_git_failed.
    + reflexivity.
Qed.

Lemma error_kinds_distinguishable_witness :
  (∃ e, run_query (H := scenario_host repo_dirs None) NewFiles sub_handle tt
        = (Raise e, sub_handle, tt) ∧ kind_of e = Some ExecutableNotFound)
  ∧ (∃ e, run_query (H := failing_git (blit "fatal: not a repo")) NewFiles sub_handle tt
          = (Raise e, sub_handle, tt) ∧ kind_of e = Some CommandFailed)
  ∧ kind_of (NotGitRepositoryError
               (lit "Unable to find git repository root from: " ++ lit "/tmp/plain"))
    = Some NotGitRepository.
Proof.
  destruct error_kinds_distinguishable as (_ & _ & Hinit & Hmissing & Hfailed).
  split_and!.
  - apply (Hmissing (scenario_host repo_dirs None) NewFiles sub_handle tt tt).
    reflexivity.
  - apply (Hfailed (failing_git (blit "fatal: not a repo")) NewFiles sub_handle tt tt
             1%Z [] (blit "fatal: not a repo") (lit "fatal: not a repo")).
    + reflexivity.
    + done.
    + reflexivity.
  - apply (Hinit (scenario_host repo_dirs None) (OfStr (lit "/tmp/plain")) (lit "git") tt).
    reflexivity.
Defined.

(** ** [git] fails *)

Lemma repr_char_plain (isprintable : N → bool) (ch : N) :
  plain ch = true → builtins.repr_char isprintable builtins.squote ch = [ch].
Proof.
  unfold plain, builtins.repr_char, builtins.squote, builtins.dquote, builtins.backslash.
  rewrite !andb_true_iff, !negb_true_iff, N.leb_le, N.ltb_lt, !N.eqb_neq.
  intros [[[[Hlo Hhi] Hsq] Hdq] Hbs].
  rewrite (proj2 (N.eqb_neq ch 39)), (proj2 (N.eqb_neq ch 92)) by done. simpl.
  rewrite (proj2 (N.eqb_neq ch 9)), (proj2 (N.eqb_neq ch 10)),
    (proj2 (N.eqb_neq ch 13)) by lia.
  rewrite (proj2 (N.ltb_ge ch 32)), (proj2 (N.eqb_neq ch 127)) by lia. simpl.
  by rewrite (proj2 (N.ltb_lt ch 127)).
Qed.

Lemma plain_not_squote (s : str) : forallb plain s = true → builtins.squote ∉ s.
Proof.
  rewrite forallb_forall. intros Hs Hin. apply list_elem_of_In, Hs in Hin. done.
Qed.

Lemma repr_chars_plain (isprintable : N → bool) (s : str) :
  forallb plain s = true →
  mjoin (builtins.repr_char isprintable builtins.squote <$> s) = s.
Proof.
  induction s as [|ch s IH]; [done|]. cbn [forallb].
  intros [Hch Hs]%andb_true_iff.
  change (builtins.repr_char isprintable builtins.squote ch
            ++ mjoin (builtins.repr_char isprintable builtins.squote <$> s) = ch :: s).
  rewrite (repr_char_plain _ _ Hch), (IH Hs). done.
Qed.

(** [repr] of plain text is the text between single quotes. *)
Lemma repr_plain (isprintable : N → bool) (s : str) :
  forallb plain s = true →
  builtins.repr isprintable s = [builtins.squote] ++ s ++ [builtins.squote].
Proof.
  intros Hs. unfold builtins.repr, builtins.repr_quote.
  rewrite (bool_decide_eq_false_2 _ (plain_not_squote s Hs)). cbn [andb].
  by rewrite repr_chars_plain.
Qed.

(** What the message of the [GitError] holds. *)
Lemma failure_message_contains `{Host} (command : list str) (d : PurePath) (text : str) :
  let msg := GitFolder.failure_message command d text in
  contains msg (builtins.repr isprintable (join (lit " ") command))
  ∧ contains msg (to_str d)
  ∧ contains msg text
  ∧ (forallb plain (join (lit " ") command) = true →
     contains msg (join (lit " ") command)).
Proof.
  unfold GitFolder.failure_message, contains. split_and!.
  - exists (lit "git command "), (lit " failed in " ++ to_str d ++ lit ": " ++ text).
    by rewrite <- ?app_assoc.
  - exists (lit "git command " ++ builtins.repr isprintable (join (lit " ") command)
              ++ lit " failed in "), (lit ": " ++ text).
    by rewrite <- ?app_assoc.
  - exists (lit "git command " ++ builtins.repr isprintable (join (lit " ") command)
              ++ lit " failed in " ++ to_str d ++ lit ": "), [].
    by rewrite app_nil_r, <- ?app_assoc.
  - intros Hplain. rewrite (repr_plain _ _ Hplain).
    exists (lit "git command " ++ [builtins.squote]),
           ([builtins.squote] ++ lit " failed in " ++ to_str d ++ lit ": " ++ text).
    by rewrite <- ?app_assoc.
Qed.

(** When [git] exits with a non-zero status and its standard error is
    UTF-8, [run_git] and the queries raise a [GitError] whose message holds
    the command line, the working directory and that text. *)
Lemma decodable_failure_raises_GitError `{Host} (q : Query) (self : GitFolder.t)
    (w w' : World) (rc : Z) (outb err : bytes) (text : str) :
  Popen (GitFolder._git_exec self :: query_args q) (to_str (GitFolder._cwd self)) w
  = (Exited rc outb err, w') →
  rc ≠ 0%Z →
  codecs.decode err = Some text →
  ∃ msg cause,
    GitFolder.run_git (query_args q) self w = (Raise (GitError msg cause), self, w')
    ∧ run_query q self w = (Raise (GitError msg cause), self, w')
    ∧ msg = GitFolder.failure_message (GitFolder._git_exec self :: query_args q)
              (GitFolder._cwd self) text
    ∧ contains msg text.
Proof.
  intros HP Hrc Htext. do 2 eexists. split_and!.
  - by eapply run_git_failed.
  - apply run_query_raise. by eapply run_git_failed.
  - reflexivity.
  - apply failure_message_contains.
Qed.

(** The scenario of the specification: status 1 and [fatal: not a repo]. *)
Example fatal_not_a_repo :
  ∃ cause,
    run_query (H := failing_git (blit "fatal: not a repo")) TrackedFiles sub_handle tt
    = (Raise (GitError
                (lit "git command 'git ls-files --recurse-submodules -z' failed in /repo/sub: fatal: not a repo")
                cause),
       sub_handle, tt)
    ∧ kind_of (GitError (lit "fatal: not a repo") cause) = Some CommandFailed.
Proof. eexists. split; reflexivity. Qed.

(** C5, where the code departs from it.  [git] exits with status 1 and
    writes the single byte [0xff] to its standard error: decoding that
    for the message raises [UnicodeDecodeError], which is what the query
    ends with; it is not a [GitError] of any kind. *)
Theorem undecodable_stderr_raises_unicode_error (q : Query) :
  let H := failing_git [xff] in
  run_query q sub_handle tt = (Raise (UnicodeDecodeError [xff]), sub_handle, tt)
  ∧ GitFolder.run_git (query_args q) sub_handle tt
    = (Raise (UnicodeDecodeError [xff]), sub_handle, tt)
  ∧ isinstance (UnicodeDecodeError [xff]) GitError_ = false
  ∧ kind_of (UnicodeDecodeError [xff]) = None.
Proof. by destruct q. Qed.

(** * Further properties *)

(** ** [find_git_root] along the lineage *)

Lemma length_lineage (p : PurePath) : length (lineage p) = S (length (parts p)).
Proof.
  unfold lineage, parents. simpl. by rewrite length_fmap, length_reverse, length_seq.
Qed.

Lemma lineage_lookup_inv (p q : PurePath) (j : nat) :
  lineage p !! j = Some q →
  (j ≤ length (parts p))%nat
  ∧ q = {| root := root p; parts := take (length (parts p) - j) (parts p) |}.
Proof.
  intros Hj. assert (j ≤ length (parts p))%nat as Hle.
  { apply lookup_lt_Some in Hj. rewrite length_lineage in Hj. lia. }
  split; [done|]. rewrite lineage_lookup in Hj by done. by injection Hj as <-.
Qed.

(** The lineage of a member of a lineage is the rest of that lineage. *)
Lemma lineage_of_member (p q : PurePath) (j k : nat) :
  lineage p !! j = Some q → lineage q !! k = lineage p !! (j + k)%nat.
Proof.
  intros Hj. apply lineage_lookup_inv in Hj as [Hle ->].
  set (n := length (parts p)) in *.
  destruct (decide (k ≤ n - j)%nat) as [Hk|Hk].
  - rewrite !lineage_lookup; simpl; rewrite ?length_take; try lia.
    do 2 f_equal. fold n. rewrite take_take.
    replace (n `min` (n - j))%nat with (n - j)%nat by lia.
    f_equal. lia.
  - rewrite !lookup_ge_None_2; [done|..]; rewrite length_lineage; simpl;
      rewrite ?length_take; fold n; lia.
Qed.

(** X1.  Once [find_git_root] answers [r] for a path, it answers [r] for
    every directory from the path up to [r], and so for [r] itself. *)
Theorem find_git_root_same_between `{Host} (w : World) (p q r : PurePath) :
  find_git_root w (OfPath p) = Some r →
  ancestor_or_self q p →
  ancestor_or_self r q →
  find_git_root w (OfPath q) = Some r
  ∧ find_git_root w (OfPath r) = Some r.
Proof.
  unfold find_git_root. simpl. intros Hfind Hqp Hrq.
  apply climb_nearest in Hfind as (i & Hi & Hgit & Hbefore).
  split.
  - apply elem_of_lineage, list_elem_of_lookup_1 in Hqp as [j Hj].
    pose proof (lineage_lookup_inv _ _ _ Hi) as [Hile Hr].
    pose proof (lineage_lookup_inv _ _ _ Hj) as [Hjle Hq].
    assert (j ≤ i)%nat as Hji.
    { destruct Hrq as [_ Hpre]. apply prefix_length in Hpre.
      rewrite Hr, Hq in Hpre. simpl in Hpre. rewrite !length_take in Hpre. lia. }
    apply climb_nearest. exists (i - j)%nat. split_and!.
    + rewrite (lineage_of_member _ _ _ _ Hj). by replace (j + (i - j))%nat with i by lia.
    + done.
    + intros k q' Hk Hq'. rewrite (lineage_of_member _ _ _ _ Hj) in Hq'.
      apply (Hbefore (j + k)%nat); [lia|done].
  - rewrite climb_step. by rewrite Hgit.
Qed.

Lemma find_git_root_same_between_witness :
  find_git_root (H := scenario_host repo_dirs None) tt
    (OfPath (PurePosixPath (lit "/repo/sub"))) = Some (PurePosixPath (lit "/repo"))
  ∧ find_git_root (H := scenario_host repo_dirs None) tt
      (OfPath (PurePosixPath (lit "/repo"))) = Some (PurePosixPath (lit "/repo")).
Proof.
  apply (find_git_root_same_between (H := scenario_host repo_dirs None) tt
           (PurePosixPath (lit "/repo/sub/dir")) (PurePosixPath (lit "/repo/sub"))
           (PurePosixPath (lit "/repo"))).
  - reflexivity.
  - split; [reflexivity|]. by exists [lit "dir"].
  - split; [reflexivity|]. by exists [lit "sub"].
Defined.

(** X2.  The answer of [find_git_root] depends on the file system only
    through the [.git] directories right beneath the path and its parents:
    two states of the machine that agree on those give the same answer. *)
Theorem find_git_root_reads_lineage_only `{Host} (w1 w2 : World) (x : PathLike) :
  (∀ q, q ∈ lineage (Path x) → has_git w1 q = has_git w2 q) →
  find_git_root w1 x = find_git_root w2 x.
Proof.
  unfold find_git_root. intros Hagree.
  destruct (climb w1 (Path x)) as [r|] eqn:H1; symmetry.
  - apply climb_nearest in H1 as (i & Hi & Hgit & Hbefore).
    apply climb_nearest. exists i. split_and!; [done|..].
    + rewrite <- Hagree; [done|]. by apply list_elem_of_lookup_2 in Hi.
    + intros j q Hj Hq. rewrite <- Hagree; [by apply (Hbefore j)|].
      by apply list_elem_of_lookup_2 in Hq.
  - rewrite climb_None in H1. apply climb_None. intros q Hq.
    rewrite <- Hagree by done. by apply H1.
Qed.

Lemma find_git_root_reads_lineage_only_witness :
  find_git_root (H := dirs_host) repo_dirs (OfStr (lit "/repo/sub"))
  = find_git_root (H := dirs_host)
      (PurePosixPath (lit "/other/.git") :: repo_dirs) (OfStr (lit "/repo/sub")).
Proof.
  apply (find_git_root_reads_lineage_only (H := dirs_host) repo_dirs
           (PurePosixPath (lit "/other/.git") :: repo_dirs) (OfStr (lit "/repo/sub"))).
  intros q Hq. apply list_elem_of_In in Hq. vm_compute in Hq.
  destruct Hq as [<-|[<-|[<-|[]]]]; reflexivity.
Defined.

(** ** What [run_git] and the queries do to the machine and hand back *)

Section calls.
Context `{Host}.
Implicit Types (self : GitFolder.t) (w : World) (args : list str).

Lemma run_git_world self w args :
  (GitFolder.run_git args self w).2
  = (Popen (GitFolder._git_exec self :: args) (to_str (GitFolder._cwd self)) w).2.
Proof.
  unfold GitFolder.run_git, mbind, GitFolder.M_bind, GitFolder.attr,
    GitFolder.try_except, GitFolder.cwd, GitFolder.check_output,
    GitFolder.decode, GitFolder.raise. simpl.
  destruct (Popen _ _ w) as [[e|rc outb err] w'].
  - destruct e; try done. simpl. by destruct (codecs.decode _).
  - destruct rc; [done| |]; simpl; by destruct (codecs.decode _).
Qed.

Lemma run_git_Return_inv self w args outb self' w' :
  GitFolder.run_git args self w = (Return outb, self', w') →
  self' = self
  ∧ ∃ err, Popen (GitFolder._git_exec self :: args) (to_str (GitFolder._cwd self)) w
           = (Exited 0 outb err, w').
Proof.
  unfold GitFolder.run_git, mbind, GitFolder.M_bind, GitFolder.attr,
    GitFolder.try_except, GitFolder.cwd, GitFolder.check_output,
    GitFolder.decode, GitFolder.raise. simpl.
  destruct (Popen _ _ w) as [[e|rc out err] w''].
  - destruct e; try done. simpl. by destruct (codecs.decode _).
  - destruct rc; simpl.
    + intros [= -> -> ->]. split; [done|]. by exists err.
    + by destruct (codecs.decode _).
    + by destruct (codecs.decode _).
Qed.

Lemma run_query_world (q : Query) self w :
  (run_query q self w).2
  = (Popen (GitFolder._git_exec self :: query_args q) (to_str (GitFolder._cwd self)) w).2.
Proof.
  rewrite <- run_git_world, run_query_unfold. unfold mbind, GitFolder.M_bind at 1.
  by destruct (GitFolder.run_git (query_args q) self w) as [[[outb|e] self'] w'].
Qed.

Lemma run_query_Return_inv (q : Query) self w files self' w' :
  run_query q self w = (Return files, self', w') →
  self' = self
  ∧ ∃ outb err,
      Popen (GitFolder._git_exec self :: query_args q) (to_str (GitFolder._cwd self)) w
      = (Exited 0 outb err, w')
      ∧ files = GitFolder.paths_of (GitFolder._cwd self) outb.
Proof.
  rewrite run_query_unfold. unfold mbind, GitFolder.M_bind at 1.
  destruct (GitFolder.run_git (query_args q) self w) as [[[outb|e] s1] w1] eqn:Hrun;
    [|done].
  apply run_git_Return_inv in Hrun as [-> [err HP]].
  intros [= <- <- <-]. split; [done|]. by exists outb, err.
Qed.

Lemma run_query_Raise_inv (q : Query) self w e self' w' :
  run_query q self w = (Raise e, self', w') →
  GitFolder.run_git (query_args q) self w = (Raise e, self', w').
Proof.
  rewrite run_query_unfold. unfold mbind, GitFolder.M_bind at 1.
  destruct (GitFolder.run_git (query_args q) self w) as [[[outb|e'] s1] w1].
  - unfold mbind, GitFolder.M_bind, GitFolder.cwd, GitFolder.attr. discriminate.
  - by intros [= -> -> ->].
Qed.

End calls.

(** X3.  Each call of [run_git], and so each query, runs one process: the
    machine after the call is the machine after running the command
    [git_exec] followed by the arguments in the directory [str(cwd)],
    whether the call returns or raises.  Reading [root], [cwd] or
    [repr] runs nothing. *)
Theorem one_process_per_call `{Host} (self : GitFolder.t) (w : World) :
  (∀ args,
     (GitFolder.run_git args self w).2
     = (Popen (GitFolder._git_exec self :: args) (to_str (GitFolder._cwd self)) w).2)
  ∧ (∀ q,
       (run_query q self w).2
       = (Popen (GitFolder._git_exec self :: query_args q)
                (to_str (GitFolder._cwd self)) w).2)
  ∧ (GitFolder.root self w).2 = w
  ∧ (GitFolder.cwd self w).2 = w
  ∧ (GitFolder.__repr__ self w).2 = w.
Proof.
  split_and!; [intros args; apply run_git_world|intros q; apply run_query_world|done..].
Qed.

(** X4.  [run_git] returns bytes only when the process exited with
    status 0, and what it returns is then the standard output, whatever
    was written to the standard error. *)
Theorem run_git_returns_stdout_of_status_zero `{Host}
    (args : list str) (self self' : GitFolder.t) (w w' : World) (outb : bytes) :
  GitFolder.run_git args self w = (Return outb, self', w')
  ↔ self' = self
    ∧ ∃ err, Popen (GitFolder._git_exec self :: args) (to_str (GitFolder._cwd self)) w
             = (Exited 0 outb err, w').
Proof.
  split.
  - apply run_git_Return_inv.
  - intros [-> [err HP]]. by apply run_git_ok with err.
Qed.

(** X5.  A query is all or nothing: it returns a set only when the
    process exited with status 0, the set being the one parsed from the
    whole standard output; and when it raises, it raises what [run_git]
    raised, with no set at all. *)
Theorem query_all_or_nothing `{Host}
    (q : Query) (self self' : GitFolder.t) (w w' : World) :
  (∀ files,
     run_query q self w = (Return files, self', w')
     ↔ self' = self
       ∧ ∃ outb err,
           Popen (GitFolder._git_exec self :: query_args q)
                 (to_str (GitFolder._cwd self)) w = (Exited 0 outb err, w')
           ∧ files = GitFolder.paths_of (GitFolder._cwd self) outb)
  ∧ (∀ e,
       run_query q self w = (Raise e, self', w')
       ↔ GitFolder.run_git (query_args q) self w = (Raise e, self', w')).
Proof.
  split.
  - intros files. split.
    + apply run_query_Return_inv.
    + intros [-> (outb & err & HP & ->)]. by apply run_query_ok with err.
  - intros e. split; [apply run_query_Raise_inv|apply run_query_raise].
Qed.

Lemma query_all_or_nothing_witness :
  run_query (H := scenario_host repo_dirs (Some (Exited 0 two_records [])))
    NewFiles sub_handle tt
  = (Return (GitFolder.paths_of (H := scenario_host repo_dirs None)
               (PurePosixPath (lit "/repo/sub")) two_records), sub_handle, tt).
Proof.
  apply (proj1 (query_all_or_nothing
                  (H := scenario_host repo_dirs (Some (Exited 0 two_records [])))
                  NewFiles sub_handle sub_handle tt tt)).
  split; [reflexivity|]. exists two_records, []. split; reflexivity.
Defined.

(** ** Standard error in ASCII *)

Lemma scan_ascii (bs : bytes) :
  is_ascii bs = true → codecs.scan bs = (λ b, inl (Byte.to_N b)) <$> bs.
Proof.
  induction bs as [|b bs IH]; [done|]. cbn [is_ascii forallb].
  intros [Hb Hbs]%andb_true_iff. cbn [codecs.scan]. cbv zeta.
  rewrite Hb. cbn [fmap list_fmap]. f_equal. by apply IH.
Qed.

Lemma decode_ascii (bs : bytes) :
  is_ascii bs = true → codecs.decode bs = Some (Byte.to_N <$> bs).
Proof.
  intros Hbs. unfold codecs.decode. rewrite (scan_ascii _ Hbs). clear Hbs.
  induction bs as [|b bs IH]; [done|]. cbn. cbn in IH. by rewrite IH.
Qed.

(** X6.  When [git] exits with a non-zero status and its standard error
    is ASCII, [run_git] raises a [GitError] made from the
    [CalledProcessError]; its message is the one of the source with the
    standard error, character for byte, at its end. *)
Theorem ascii_stderr_raises_GitError `{Host}
    (args : list str) (self : GitFolder.t) (w w' : World)
    (rc : Z) (outb err : bytes) :
  Popen (GitFolder._git_exec self :: args) (to_str (GitFolder._cwd self)) w
  = (Exited rc outb err, w') →
  rc ≠ 0%Z →
  is_ascii err = true →
  GitFolder.run_git args self w
  = (Raise (GitError
              (lit "git command "
                 ++ builtins.repr isprintable
                      (join (lit " ") (GitFolder._git_exec self :: args))
                 ++ lit " failed in " ++ to_str (GitFolder._cwd self)
                 ++ lit ": " ++ (Byte.to_N <$> err))
              (CalledProcessError rc (GitFolder._git_exec self :: args) outb err)),
     self, w').
Proof.
  intros HP Hrc Hascii.
  by rewrite (run_git_failed _ _ _ _ _ _ _ _ HP Hrc (decode_ascii _ Hascii)).
Qed.

Lemma ascii_stderr_raises_GitError_witness :
  ∃ cause,
    GitFolder.run_git (H := failing_git (blit "fatal: not a repo"))
      [lit "status"] sub_handle tt
    = (Raise (GitError
                (lit "git command 'git status' failed in /repo/sub: fatal: not a repo")
                cause), sub_handle, tt).
Proof.
  eexists.
  apply (ascii_stderr_raises_GitError (H := failing_git (blit "fatal: not a repo"))
           [lit "status"] sub_handle tt tt 1 [] (blit "fatal: not a repo")).
  - reflexivity.
  - done.
  - reflexivity.
Defined.

(** ** [repr] of an instance *)

(** X7.  When the string of the working directory is plain (printable
    ASCII without quotes or backslash), [repr] of the instance is that
    string between [GitFolder('] and [')]; neither the root nor the
    executable shows in it, and the instance is left as it was. *)
Theorem repr_shows_plain_cwd `{Host} (self : GitFolder.t) (w : World) :
  forallb plain (to_str (GitFolder._cwd self)) = true →
  GitFolder.__repr__ self w
  = (Return (lit "GitFolder('" ++ to_str (GitFolder._cwd self) ++ lit "')"), self, w).
Proof.
  intros Hplain. unfold GitFolder.__repr__, mbind, GitFolder.M_bind, GitFolder.cwd,
    GitFolder.attr, mret, GitFolder.M_ret.
  rewrite (repr_plain _ _ Hplain). do 2 f_equal. f_equal.
  by rewrite <- ?app_assoc.
Qed.

Lemma repr_shows_plain_cwd_witness :
  GitFolder.__repr__ (H := scenario_host repo_dirs None) sub_handle tt
  = (Return (lit "GitFolder('/repo/sub')"), sub_handle, tt).
Proof.
  apply (repr_shows_plain_cwd (H := scenario_host repo_dirs None) sub_handle tt).
  reflexivity.
Defined.

Lemma run_git_returns_stdout_of_status_zero_witness :
  GitFolder.run_git (H := scenario_host repo_dirs (Some (Exited 0 two_records (blit "warning"))))
    [lit "ls-files"; lit "-z"] sub_handle tt
  = (Return two_records, sub_handle, tt).
Proof.
  apply (proj2 (run_git_returns_stdout_of_status_zero
                  (H := scenario_host repo_dirs (Some (Exited 0 two_records (blit "warning"))))
                  [lit "ls-files"; lit "-z"] sub_handle sub_handle tt tt two_records)).
  split; [reflexivity|]. exists (blit "warning"). reflexivity.
Defined.

(** ** Records and names *)

Section records.
Context {A : Type} `{EqDecision A}.
Implicit Types (c : A) (a b : list A).

Lemma split_app_sep c a b : split c (a ++ c :: b) = split c a ++ split c b.
Proof.
  induction a as [|x a IH]; simpl.
  - by rewrite decide_True.
  - case_decide; [by rewrite IH|]. rewrite IH.
    pose proof (split_not_nil c a). by destruct (split c a).
Qed.

Lemma split_without_sep c a : c ∉ a → split c a = [a].
Proof.
  induction a as [|x a IH]; [done|]. rewrite not_elem_of_cons. intros [Hx Ha].
  simpl. rewrite decide_False by done. by rewrite IH.
Qed.

End records.

Lemma locs_app_sep (a b : bytes) :
  GitFolder.locs (a ++ NUL :: b) = GitFolder.locs a ++ GitFolder.locs b.
Proof. by rewrite !locs_split, split_app_sep, List.filter_app. Qed.

Lemma locs_name (name : bytes) :
  name ≠ [] → NUL ∉ name → GitFolder.locs name = [name].
Proof.
  intros Hne Hnul. rewrite locs_split, split_without_sep by done. simpl.
  unfold nonempty. by rewrite bool_decide_eq_false_2.
Qed.

Lemma locs_z_output (names : list bytes) :
  Forall (λ name, name ≠ [] ∧ NUL ∉ name) names →
  GitFolder.locs (z_output names) = names.
Proof.
  induction 1 as [|name names [Hne Hnul] _ IH]; [done|].
  unfold z_output. cbn [fmap list_fmap mjoin list_join].
  change (mjoin ((λ n, n ++ [NUL]) <$> names)) with (z_output names).
  rewrite <- app_assoc. simpl. by rewrite locs_app_sep, IH, locs_name.
Qed.

Lemma locs_join (names : list bytes) :
  Forall (λ name, name ≠ [] ∧ NUL ∉ name) names →
  GitFolder.locs (join [NUL] names) = names.
Proof.
  induction 1 as [|name names [Hne Hnul] Hall IH]; [done|].
  destruct names as [|name' names]; simpl.
  - by apply locs_name.
  - rewrite locs_app_sep, locs_name by done. simpl. f_equal. apply IH.
Qed.

(** X8.  Parsing gives back the names [git] wrote.  For names that are
    not empty and hold no null byte, written with a null byte after each
    (or only between them), the records parsed are those names in their
    order, and a query returns one path for each of them. *)
Theorem parsing_recovers_names `{Host} (names : list bytes) :
  Forall (λ name, name ≠ [] ∧ NUL ∉ name) names →
  GitFolder.locs (z_output names) = names
  ∧ GitFolder.locs (join [NUL] names) = names
  ∧ ∀ q self w w' err,
      Popen (GitFolder._git_exec self :: query_args q)
            (to_str (GitFolder._cwd self)) w = (Exited 0 (z_output names) err, w') →
      run_query q self w
      = (Return (list_to_set
                   ((λ name, GitFolder._cwd self /: PurePosixPath (fsdecode name))
                      <$> names)), self, w').
Proof.
  intros Hnames. split_and!.
  - by apply locs_z_output.
  - by apply locs_join.
  - intros q self w w' err HP. rewrite (run_query_ok _ _ _ _ _ _ HP).
    unfold GitFolder.paths_of. by rewrite locs_z_output.
Qed.

Lemma parsing_recovers_names_witness :
  GitFolder.locs two_records = [blit "a.txt"; blit "dir/b.txt"].
Proof.
  apply (parsing_recovers_names (H := scenario_host repo_dirs None)
           [blit "a.txt"; blit "dir/b.txt"]).
  apply (bool_decide_unpack _). vm_compute. exact I.
Defined.

Lemma paths_of_app_sep `{Host} (d : PurePath) (a b : bytes) :
  GitFolder.paths_of d (a ++ [NUL] ++ b)
  = GitFolder.paths_of d a ∪ GitFolder.paths_of d b.
Proof.
  unfold GitFolder.paths_of. simpl. by rewrite locs_app_sep, fmap_app, list_to_set_app_L.
Qed.

(** X9.  The set parsed from two outputs put together with a null byte
    between them is the union of the sets parsed from each; so the order
    of the records does not matter and a record that comes twice counts
    once. *)
Theorem paths_of_concatenation_is_union `{Host} (d : PurePath) (a b : bytes) :
  GitFolder.paths_of d (a ++ [NUL] ++ b)
  = GitFolder.paths_of d a ∪ GitFolder.paths_of d b
  ∧ GitFolder.paths_of d (a ++ [NUL] ++ b) = GitFolder.paths_of d (b ++ [NUL] ++ a)
  ∧ GitFolder.paths_of d (a ++ [NUL] ++ a) = GitFolder.paths_of d a.
Proof.
  rewrite !paths_of_app_sep. split_and!.
  - done.
  - apply (comm_L (∪)).
  - apply (idemp_L (∪)).
Qed.

(** ** Where the returned paths lie *)





(** ** A path and its string *)

Lemma split_join_slash (xs : list str) :
  xs ≠ [] → Forall (λ x, slash ∉ x) xs → split slash (join [slash] xs) = xs.
Proof.
  intros Hne Hall. induction Hall as [|x xs Hx Hxs IH]; [done|]. clear Hne.
  destruct xs as [|y xs].
  - simpl. by apply split_without_sep.
  - change (join [slash] (x :: y :: xs)) with (x ++ slash :: join [slash] (y :: xs)).
    rewrite split_app_sep, split_without_sep by done. simpl. f_equal. by apply IH.
Qed.

Lemma filter_kept_all (xs : list str) :
  Forall (λ x, kept x = true) xs → List.filter kept xs = xs.
Proof. induction 1 as [|x xs Hx _ IH]; [done|]. simpl. by rewrite Hx, IH. Qed.

Lemma join_slash_head (c : N) (x : str) (xs : list str) :
  ∃ rest, join [slash] ((c :: x) :: xs) = c :: rest.
Proof. destruct xs; simpl; by eexists. Qed.

Lemma PurePosixPath_well_formed (s : str) : well_formed (PurePosixPath s).
Proof.
  unfold well_formed, PurePosixPath. simpl. apply Forall_forall. intros x Hx.
  apply list_elem_of_In, List.filter_In in Hx as [Hx Hkept]. split; [done|].
  by apply (split_no_sep slash s), list_elem_of_In.
Qed.

Lemma PurePosixPath_to_str (p : PurePath) :
  well_formed p → PurePosixPath (to_str p) = p.
Proof.
  destruct p as [r xs]. unfold well_formed. simpl. intros Hwf.
  destruct xs as [|x xs]; [by destruct r|].
  assert (Forall (λ x, kept x = true) (x :: xs)) as Hkept
    by (eapply Forall_impl; [exact Hwf|by intros ? [? ?]]).
  assert (Forall (λ x, slash ∉ x) (x :: xs)) as Hslash
    by (eapply Forall_impl; [exact Hwf|by intros ? [? ?]]).
  pose proof (split_join_slash (x :: xs) ltac:(done) Hslash) as Hsplit.
  apply filter_kept_all in Hkept.
  destruct x as [|c x]; [by apply Forall_inv in Hwf as [? _]|].
  assert (c ≠ slash) as Hc.
  { apply Forall_inv in Hslash. rewrite not_elem_of_cons in Hslash. by destruct Hslash. }
  destruct (join_slash_head c x xs) as [rest Hrest].
  unfold to_str, PurePosixPath. cbn [root parts].
  unfold str in *. rewrite Hrest in Hsplit. rewrite !Hrest.
  destruct r; cbn [root_str app].
  - f_equal; [|by rewrite Hsplit].
    unfold splitroot. cbn [take drop]. repeat case_bool_decide; simpl; congruence.
  - f_equal; [|by rewrite split_sep_cons, Hsplit].
    unfold splitroot. cbn [take drop]. repeat case_bool_decide; simpl; congruence.
  - f_equal; [|by rewrite !split_sep_cons, Hsplit].
    unfold splitroot. cbn [take drop]. repeat case_bool_decide; simpl; congruence.
Qed.

(** X11.  The string of a path names that path: for a path as pathlib
    builds them, parsing [str(p)] gives [p] back; every parsed path is of
    that form, so parsing [str(Path(s))] gives [Path(s)]; and
    [find_git_root] answers the same for the string as for the path. *)
Theorem path_string_round_trip `{Host} (w : World) (p : PurePath) (s : str) :
  (well_formed p → PurePosixPath (to_str p) = p)
  ∧ well_formed (PurePosixPath s)
  ∧ PurePosixPath (to_str (PurePosixPath s)) = PurePosixPath s
  ∧ (well_formed p →
     find_git_root w (OfStr (to_str p)) = find_git_root w (OfPath p)).
Proof.
  split_and!.
  - apply PurePosixPath_to_str.
  - apply PurePosixPath_well_formed.
  - apply PurePosixPath_to_str, PurePosixPath_well_formed.
  - intros Hwf. unfold find_git_root. simpl. by rewrite PurePosixPath_to_str.
Qed.

Lemma path_string_round_trip_witness :
  PurePosixPath (to_str (PurePosixPath (lit "//repo/./sub//dir/")))
  = PurePosixPath (lit "//repo/./sub//dir/")
  ∧ find_git_root (H := scenario_host repo_dirs None) tt
      (OfStr (to_str (PurePosixPath (lit "/repo/sub"))))
    = find_git_root (H := scenario_host repo_dirs None) tt
        (OfPath (PurePosixPath (lit "/repo/sub"))).
Proof.
  split.
  - apply (proj1 (path_string_round_trip (H := scenario_host repo_dirs None) tt
                    (PurePosixPath (lit "//repo/./sub//dir/")) [])).
    apply (bool_decide_unpack _). vm_compute. exact I.
  - apply (path_string_round_trip (H := scenario_host repo_dirs None) tt
             (PurePosixPath (lit "/repo/sub")) []).
    apply (bool_decide_unpack _). vm_compute. exact I.
Defined.

(** ** The answer stays within the path *)

Lemma climb_sound `{Host} (w : World) (p r : PurePath) :
  climb w p = Some r → ancestor_or_self r p ∧ has_git w r = true.
Proof.
  intros (i & Hi & Hgit & _)%climb_nearest. split; [|done].
  apply elem_of_lineage. by apply list_elem_of_lookup_2 in Hi.
Qed.

(** X12.  What [find_git_root] answers is the path given or one of its
    parents as pathlib forms them, with a [.git] directory beneath it: it
    has the root of the path and components that begin those of the
    path, so a relative path gets a relative answer.  A path without
    components, such as ['.'] or ['/'], is looked at once. *)
Theorem find_git_root_stays_within_path `{Host} (w : World) (x : PathLike) :
  (∀ r, find_git_root w x = Some r →
        ancestor_or_self r (Path x) ∧ has_git w r = true)
  ∧ (parts (Path x) = [] →
     find_git_root w x = if has_git w (Path x) then Some (Path x) else None).
Proof.
  unfold find_git_root. split.
  - intros r. apply climb_sound.
  - intros Hparts. rewrite climb_step. destruct (has_git w (Path x)); [done|].
    apply parent_fixed in Hparts. by rewrite decide_True.
Qed.

Lemma find_git_root_stays_within_path_witness :
  find_git_root (H := scenario_host repo_dirs None) tt (OfStr (lit ".")) = None
  ∧ ancestor_or_self (PurePosixPath (lit "/repo")) (Path (OfStr (lit "/repo/sub/dir"))).
Proof.
  destruct (find_git_root_stays_within_path (H := scenario_host repo_dirs None) tt
              (OfStr (lit "."))) as [_ Hdot].
  destruct (find_git_root_stays_within_path (H := scenario_host repo_dirs None) tt
              (OfStr (lit "/repo/sub/dir"))) as [Hsound _].
  split.
  - apply Hdot. reflexivity.
  - apply (Hsound (PurePosixPath (lit "/repo"))). reflexivity.
Defined.

(** ** An instance for the root *)

(** X13.  The root of an instance can be given to [GitFolder] again: when
    it resolves to itself, the new instance has it both as working
    directory and as root, whatever executable is named. *)
Theorem init_on_root `{Host}
    (cwd : PathLike) (git_exec git_exec' : str) (w : World) (self : GitFolder.t) :
  GitFolder.__init__ cwd git_exec w = Return self →
  resolve w (GitFolder._root self) = GitFolder._root self →
  GitFolder.__init__ (OfPath (GitFolder._root self)) git_exec' w
  = Return {| GitFolder._cwd := GitFolder._root self;
              GitFolder._root := GitFolder._root self;
              GitFolder._git_exec := git_exec' |}.
Proof.
  unfold GitFolder.__init__, find_git_root. cbn [Path]. intros Hinit Hres.
  destruct (climb w (resolve w (Path cwd))) as [r|] eqn:Hfind; [|done].
  injection Hinit as <-. cbn [GitFolder._root] in *. rewrite Hres.
  apply climb_sound in Hfind as [_ Hgit].
  by rewrite climb_step, Hgit.
Qed.

Lemma init_on_root_witness :
  GitFolder.__init__ (H := scenario_host repo_dirs None)
    (OfPath (PurePosixPath (lit "/repo"))) (lit "/usr/bin/git") tt
  = Return {| GitFolder._cwd := PurePosixPath (lit "/repo");
              GitFolder._root := PurePosixPath (lit "/repo");
              GitFolder._git_exec := lit "/usr/bin/git" |}.
Proof.
  apply (init_on_root (H := scenario_host repo_dirs None)
           (OfStr (lit "/repo/sub")) (lit "git") (lit "/usr/bin/git") tt sub_handle).
  - reflexivity.
  - reflexivity.
Defined.
